(** * OBM, the Object-Bit Mapper: a shallow embedding of [obm.py]

    [obm.py] describes a fixed-size binary record (for instance a CAN data
    frame) as a set of named bit ranges, the partitions, and converts between
    the values of the partitions and one packed integer or byte list.

    Python integers are unbounded and are embedded as [Z]; the operators
    [&], [|] and [>>] on them agree with [Z.land], [Z.lor] and [Z.shiftr]
    on every integer, negative ones included (two's complement with an
    infinite sign extension).  Python raises [ValueError] on a negative
    shift count, which the embedding keeps.  Exceptions are values of the
    type [exn], and a computation that may raise returns a [result]. *)

From Stdlib Require Import ZArith Lia Bool List String Ascii.
From Stdlib Require Import Decimal Hexadecimal DecimalString.
From Stdlib Require Import Sorting.Sorted Sorting.Permutation.
From stdpp Require Import base list strings gmap sorting.

Local Open Scope Z_scope.

(** ** Exceptions and results *)

Inductive exn : Type :=
| OverflowError (msg : string)
| ValueError (msg : string)
| AttributeError (attribute : string)
| NotImplementedError.

Inductive result (A : Type) : Type :=
| Ok (a : A)
| Raise (e : exn).

Arguments Ok {A} a.
Arguments Raise {A} e.

Definition bind {A B : Type} (r : result A) (k : A -> result B) : result B :=
  match r with
  | Ok a => k a
  | Raise e => Raise e
  end.

Notation "'let*' x ':=' r 'in' k" := (bind r (fun x => k))
  (at level 10, x name, r at level 100, k at level 200).

Definition is_OverflowError {A : Type} (r : result A) : bool :=
  match r with Raise (OverflowError _) => true | _ => false end.

(** ** The Python built-ins the module uses *)

(** [a << n] and [a >> n]: both raise [ValueError] when [n] is negative. *)
Definition py_lshift (a n : Z) : result Z :=
  if n <? 0 then Raise (ValueError "negative shift count")
  else Ok (Z.shiftl a n).

Definition py_rshift (a n : Z) : result Z :=
  if n <? 0 then Raise (ValueError "negative shift count")
  else Ok (Z.shiftr a n).

(** [range(0, n)], empty when [n <= 0]. *)
Definition py_range (n : Z) : list Z :=
  map Z.of_nat (seq 0 (Z.to_nat n)).

(** [str(n)], which is also what the format field [{}] prints. *)
Definition py_str (n : Z) : string :=
  NilZero.string_of_int (Z.to_int n).

(** The digits of the format type [X]: upper-case hexadecimal. *)
Fixpoint upper_hex (d : Hexadecimal.uint) : string :=
  match d with
  | Hexadecimal.Nil => EmptyString
  | Hexadecimal.D0 d => String "0" (upper_hex d)
  | Hexadecimal.D1 d => String "1" (upper_hex d)
  | Hexadecimal.D2 d => String "2" (upper_hex d)
  | Hexadecimal.D3 d => String "3" (upper_hex d)
  | Hexadecimal.D4 d => String "4" (upper_hex d)
  | Hexadecimal.D5 d => String "5" (upper_hex d)
  | Hexadecimal.D6 d => String "6" (upper_hex d)
  | Hexadecimal.D7 d => String "7" (upper_hex d)
  | Hexadecimal.D8 d => String "8" (upper_hex d)
  | Hexadecimal.D9 d => String "9" (upper_hex d)
  | Hexadecimal.Da d => String "A" (upper_hex d)
  | Hexadecimal.Db d => String "B" (upper_hex d)
  | Hexadecimal.Dc d => String "C" (upper_hex d)
  | Hexadecimal.Dd d => String "D" (upper_hex d)
  | Hexadecimal.De d => String "E" (upper_hex d)
  | Hexadecimal.Df d => String "F" (upper_hex d)
  end.

(** The format field [{:02X}]: the sign if negative, then the upper-case
    hexadecimal digits, padded with zeros after the sign up to a total
    width of two characters. *)
Definition py_format_02X (n : Z) : string :=
  let digits := upper_hex (N.to_hex_uint (Z.abs_N n)) in
  if n <? 0 then String "-" digits
  else if (String.length digits <? 2)%nat then String "0" digits
  else digits.

(** ** The global configuration *)

Record Config : Type := { error_check_overflow : bool }.

(** [A and B] where [A] is the strictness flag: [B] is evaluated only when
    the flag is set. *)
Definition checked (cfg : Config) (test : result bool) : result bool :=
  if error_check_overflow cfg then test else Ok false.

(** ** class BitFieldPartition *)

Module BitFieldPartition.

Record t : Type := mk {
  name : string;
  start_byte : Z;
  start_bit : Z;
  length : Z;
  _value : Z
}.

(** The parameter [value] defaults to [0x0] in the source. *)
Definition __init__ (start_byte start_bit length value : Z) : t :=
  mk "" start_byte start_bit length value.

Definition with_name (self : t) (n : string) : t :=
  mk n (start_byte self) (start_bit self) (length self) (_value self).

Definition with_value (self : t) (v : Z) : t :=
  mk (name self) (start_byte self) (start_bit self) (length self) v.

Definition mask (self : t) : result Z :=
  let* one := py_lshift 1 (length self) in
  Ok (one - 1).

Definition shift (self : t) : Z :=
  start_byte self * 8 + start_bit self.

Definition value (self : t) : Z := _value self.

Definition overflow_message (self : t) (value : Z) : string :=
  name self +:+ ": More than " +:+ py_str (length self)
    +:+ " bits of data (0x" +:+ py_format_02X value +:+ ")".

(** The setter of the property [value].  The receiver is unchanged when
    the setter raises: the assignment is its last statement. *)
Definition set_value (cfg : Config) (self : t) (value : Z) : result t :=
  let* over := checked cfg (let* high := py_rshift value (length self) in
                            Ok (0 <? high)) in
  if over then Raise (OverflowError (overflow_message self value))
  else Ok (with_value self value).

Definition masked_value (self : t) : result Z :=
  let* m := mask self in
  Ok (Z.land (value self) m).

Definition prefixed_name (self : t) : string :=
  py_str (start_byte self) +:+ "." +:+ py_str (start_bit self) +:+ ":"
    +:+ py_str (length self) +:+ " " +:+ name self.

(** [parse] assigns [_value] directly, it does not go through the setter
    and does not read the strictness flag. *)
Definition parse (self : t) (data : Z) : result t :=
  let* low := py_rshift data (shift self) in
  let* m := mask self in
  Ok (with_value self (Z.land low m)).

End BitFieldPartition.

(** ** Classes

    [BitField.__init__] inspects the class of the object under construction
    twice: the guard compares [self.__class__] with [BitField.__class__],
    and [dir(self)] enumerates the attributes the class provides.  A class
    is one of the classes of [obm.py], the metaclass [type], or a subclass
    declared by client code, given by its name, its base and the
    [BitFieldPartition] templates bound in its body, in declaration order.
    Two client classes are told apart by their names. *)

Inductive pyclass : Type :=
| class_type
| class_BitField
| class_Int8BitField
| class_Int16BitField
| class_Int32BitField
| class_Int64BitField
| class_Int128BitField
| class_declared (qualname : string) (base : pyclass)
                 (body : list (string * BitFieldPartition.t)).

(** [C.__class__] for a class [C]: no class here has a metaclass of its
    own, so this is [type] whatever [C] is. *)
Definition __class__ (C : pyclass) : pyclass := class_type.

Fixpoint pyclass_eqb (a b : pyclass) : bool :=
  match a, b with
  | class_type, class_type => true
  | class_BitField, class_BitField => true
  | class_Int8BitField, class_Int8BitField => true
  | class_Int16BitField, class_Int16BitField => true
  | class_Int32BitField, class_Int32BitField => true
  | class_Int64BitField, class_Int64BitField => true
  | class_Int128BitField, class_Int128BitField => true
  | class_declared n1 b1 _, class_declared n2 b2 _ =>
      String.eqb n1 n2 && pyclass_eqb b1 b2
  | _, _ => false
  end.

(** The partition templates an instance of the class sees, those of the
    class body first and then the inherited ones it does not rebind. *)
Fixpoint declared_partitions (C : pyclass)
  : list (string * BitFieldPartition.t) :=
  match C with
  | class_declared _ base body =>
      body ++ filter (fun d => negb (existsb (String.eqb (fst d)) (map fst body)))
                     (declared_partitions base)
  | _ => []
  end.

(** What [getattr(self, name)] finds for a name of [dir(self)]. *)
Inductive property : Type :=
| prop_data_bytes | prop_data_int | prop_data_ints | prop_mask | prop_nbits.

Inductive attribute : Type :=
| attr_partition (template : BitFieldPartition.t)
| attr_property (p : property)
| attr_other.

(** The attributes every [BitField] instance has while [__init__] runs
    its loop: the properties and methods of the class and the instance
    attributes [name], [nbytes] and [partitions] assigned before the loop.
    The attributes inherited from [object] (all spelled with two leading
    underscores) are left out: reading them neither raises nor yields a
    [BitFieldPartition]. *)
Definition BitField_attributes : list (string * attribute) :=
  [ ("data_bytes", attr_property prop_data_bytes);
    ("data_int", attr_property prop_data_int);
    ("data_ints", attr_property prop_data_ints);
    ("mask", attr_property prop_mask);
    ("name", attr_other);
    ("nbits", attr_property prop_nbits);
    ("nbytes", attr_other);
    ("parse_data_int", attr_other);
    ("partition", attr_other);
    ("partition_map", attr_other);
    ("partitions", attr_other);
    ("printable_partition_map", attr_other) ]%string.

(** Python orders strings by code point; [dir] returns the names sorted. *)
Definition name_le (a b : string) : Prop := String.leb a b = true.

Definition entry_le (a b : string * attribute) : Prop :=
  name_le (fst a) (fst b).

#[global] Instance name_le_dec : RelDecision name_le.
Proof. intros a b. unfold name_le. apply _. Defined.

#[global] Instance entry_le_dec : RelDecision entry_le.
Proof. intros a b. unfold entry_le. apply _. Defined.

(** [dir(self)] paired with what each name is bound to.  This is the list
    Python builds for the classes that are [well_declared] (below), and
    only for them.  A template named [name], [nbytes] or [partitions] is
    hidden by the instance attribute that [__init__] assigns before the
    loop and is never discovered; one named like a property or a method of
    [BitField] replaces it, so that the getters which use it raise
    [TypeError]; one whose name has two leading underscores can replace
    what [getattr] and [dir] themselves rely on ([__class__], [__dir__],
    [__getattribute__]).  None of that is modelled: every statement about
    construction takes [well_declared] as a hypothesis. *)
Definition dir (C : pyclass) : list (string * attribute) :=
  merge_sort entry_le
    (map (fun d => (fst d, attr_partition (snd d))) (declared_partitions C)
       ++ BitField_attributes).

(** The class is [BitField], a fixed-width class, or derives from one. *)
Fixpoint BitField_subclass (C : pyclass) : bool :=
  match C with
  | class_type => false
  | class_declared _ base _ => BitField_subclass base
  | _ => true
  end.

(** The name is spelled with two leading underscores. *)
Definition dunder (n : string) : bool := String.prefix "__" n.

(** A record type whose templates have names of their own: pairwise
    different, none the name of an attribute every [BitField] instance
    has, none with two leading underscores. *)
Definition well_declared (C : pyclass) : Prop :=
  BitField_subclass C = true /\
  NoDup (map fst (declared_partitions C)) /\
  Forall (fun n => ~ In n (map fst BitField_attributes) /\ dunder n = false)
         (map fst (declared_partitions C)).

(** ** class BitField

    Properties are embedded as functions of the receiver.  The methods
    [parse_data_int], [partition] and [partition_map] are embedded as state
    transformers: they return their result together with the receiver as
    the call leaves it, also when they raise. *)

Module BitField.

Record t : Type := mk {
  name : string;
  nbytes : Z;
  partitions : list BitFieldPartition.t
}.

Definition with_partitions (self : t) (ps : list BitFieldPartition.t) : t :=
  mk (name self) (nbytes self) ps.

Definition nbits (self : t) : Z := nbytes self * 8.

Definition mask (self : t) : result Z :=
  let* one := py_lshift 1 (nbits self) in
  Ok (one - 1).

(** The loop of [data_int]: [data = data | (masked_value << shift)]. *)
Fixpoint accumulate (ps : list BitFieldPartition.t) (data : Z) : result Z :=
  match ps with
  | [] => Ok data
  | partition :: rest =>
      let* v := BitFieldPartition.masked_value partition in
      let* shifted := py_lshift v (BitFieldPartition.shift partition) in
      accumulate rest (Z.lor data shifted)
  end.

Definition overflow_message (self : t) : string :=
  name self +:+ ": More than " +:+ py_str (nbits self) +:+ " bits of data".

Definition data_int (cfg : Config) (self : t) : result Z :=
  let* data := accumulate (partitions self) 0 in
  let* over := checked cfg (let* high := py_rshift data (nbits self) in
                            Ok (0 <? high)) in
  if over then Raise (OverflowError (overflow_message self))
  else
    let* m := mask self in
    Ok (Z.land data m).

(** The shift count [i * 8] is not negative for [i] in [range(0, nbytes)],
    so that [>>] cannot raise in the comprehension. *)
Definition data_ints (cfg : Config) (self : t) : result (list Z) :=
  let* data := data_int cfg self in
  Ok (map (fun i => Z.land (Z.shiftr data (i * 8)) 0xFF)
          (py_range (nbytes self))).

(** [bytes(ints)] raises [ValueError] on an entry outside [range(256)]. *)
Fixpoint py_bytes (ints : list Z) : result (list Byte.byte) :=
  match ints with
  | [] => Ok []
  | i :: rest =>
      match (if i <? 0 then None else Byte.of_N (Z.to_N i)) with
      | None => Raise (ValueError "bytes must be in range(0, 256)")
      | Some b => let* bs := py_bytes rest in Ok (b :: bs)
      end
  end.

Definition data_bytes (cfg : Config) (self : t) : result (list Byte.byte) :=
  let* ints := data_ints cfg self in
  py_bytes ints.

(** [getattr(self, name)] on a property runs its getter; [__init__] only
    tests the value with [isinstance], so only a raise matters. *)
Definition getattr_property (cfg : Config) (self : t) (p : property)
  : result unit :=
  match p with
  | prop_data_bytes => let* _ := data_bytes cfg self in Ok tt
  | prop_data_int => let* _ := data_int cfg self in Ok tt
  | prop_data_ints => let* _ := data_ints cfg self in Ok tt
  | prop_mask => let* _ := mask self in Ok tt
  | prop_nbits => Ok tt
  end.

(** The loop of [__init__] over [dir(self)].  [copy.deepcopy] of a
    template is the template's record; the copy is named after the
    attribute, appended to [partitions] and bound to the attribute of the
    instance, so that [self.<name>] and the entry of [partitions] are one
    object. *)
Fixpoint discover (cfg : Config) (names : list (string * attribute))
         (self : t) : result t :=
  match names with
  | [] => Ok self
  | (name, attr_partition template) :: rest =>
      let partition := BitFieldPartition.with_name template name in
      discover cfg rest (with_partitions self (partitions self ++ [partition]))
  | (name, attr_property p) :: rest =>
      let* _ := getattr_property cfg self p in
      discover cfg rest self
  | (name, attr_other) :: rest => discover cfg rest self
  end.

(** [self_class] is [self.__class__], the class that is instantiated. *)
Definition __init__ (cfg : Config) (self_class : pyclass)
           (name : string) (nbytes : Z) : result t :=
  if pyclass_eqb self_class (__class__ class_BitField)
  then Raise NotImplementedError
  else discover cfg (dir self_class) (mk name nbytes []).

(** The loop of [parse_data_int]: the partitions are updated in place,
    one after the other, and those before a raise stay updated. *)
Fixpoint parse_each (ps : list BitFieldPartition.t) (data : Z)
  : result unit * list BitFieldPartition.t :=
  match ps with
  | [] => (Ok tt, [])
  | partition :: rest =>
      match BitFieldPartition.parse partition data with
      | Raise e => (Raise e, partition :: rest)
      | Ok parsed =>
          let (r, rest') := parse_each rest data in (r, parsed :: rest')
      end
  end.

Definition parse_data_int (self : t) (data : Z) : result unit * t :=
  let (r, ps) := parse_each (partitions self) data in
  (r, with_partitions self ps).

Fixpoint find_partition (ps : list BitFieldPartition.t) (name : string)
  : option BitFieldPartition.t :=
  match ps with
  | [] => None
  | partition :: rest =>
      if String.eqb (BitFieldPartition.name partition) name
      then Some partition
      else find_partition rest name
  end.

Definition partition (self : t) (name : string)
  : result BitFieldPartition.t * t :=
  match find_partition (partitions self) name with
  | Some partition => (Ok partition, self)
  | None => (Raise (ValueError ("Partition " +:+ name +:+ " not found")), self)
  end.

(** The dict comprehension of [partition_map]: a key met again takes the
    later value. *)
Definition partition_key (prefix : bool) (p : BitFieldPartition.t) : string :=
  if prefix then BitFieldPartition.prefixed_name p
  else BitFieldPartition.name p.

Fixpoint comprehend (prefix : bool) (data : Z)
         (ps : list BitFieldPartition.t) (acc : gmap string Z)
  : result (gmap string Z) :=
  match ps with
  | [] => Ok acc
  | p :: rest =>
      let* low := py_rshift data (BitFieldPartition.shift p) in
      let* m := BitFieldPartition.mask p in
      comprehend prefix data rest (<[partition_key prefix p := Z.land low m]> acc)
  end.

Definition partition_map (cfg : Config) (self : t) (prefix : bool)
  : result (gmap string Z) * t :=
  (let* data := data_int cfg self in
   comprehend prefix data (partitions self) ∅,
   self).

(** [self.<attr>.value = v] on an instance: the attribute [attr] is bound
    to the entry of [partitions] that [__init__] named [attr], so the
    assignment updates that entry.  An attribute that is not a partition
    of the instance has no [value] to assign to: the [AttributeError]
    carries the name of that attribute (the message Python prints also
    names the class of the object). *)
Fixpoint assign (cfg : Config) (ps : list BitFieldPartition.t)
         (attr : string) (v : Z) : result (list BitFieldPartition.t) :=
  match ps with
  | [] => Raise (AttributeError attr)
  | p :: rest =>
      if String.eqb (BitFieldPartition.name p) attr
      then let* p' := BitFieldPartition.set_value cfg p v in Ok (p' :: rest)
      else let* rest' := assign cfg rest attr v in Ok (p :: rest')
  end.

Definition set_attr_value (cfg : Config) (self : t) (attr : string) (v : Z)
  : result t :=
  let* ps := assign cfg (partitions self) attr v in
  Ok (with_partitions self ps).

End BitField.

(** ** The fixed-width classes *)

Module Int8BitField.
Definition __init__ (cfg : Config) (self_class : pyclass) (name : string)
  : result BitField.t :=
  if pyclass_eqb self_class (__class__ class_Int8BitField)
  then Raise NotImplementedError
  else BitField.__init__ cfg self_class name 1.
End Int8BitField.

Module Int16BitField.
Definition __init__ (cfg : Config) (self_class : pyclass) (name : string)
  : result BitField.t :=
  if pyclass_eqb self_class (__class__ class_Int16BitField)
  then Raise NotImplementedError
  else BitField.__init__ cfg self_class name 2.
End Int16BitField.

Module Int32BitField.
Definition __init__ (cfg : Config) (self_class : pyclass) (name : string)
  : result BitField.t :=
  if pyclass_eqb self_class (__class__ class_Int32BitField)
  then Raise NotImplementedError
  else BitField.__init__ cfg self_class name 4.
End Int32BitField.

Module Int64BitField.
Definition __init__ (cfg : Config) (self_class : pyclass) (name : string)
  : result BitField.t :=
  if pyclass_eqb self_class (__class__ class_Int64BitField)
  then Raise NotImplementedError
  else BitField.__init__ cfg self_class name 8.
End Int64BitField.

Module Int128BitField.
Definition __init__ (cfg : Config) (self_class : pyclass) (name : string)
  : result BitField.t :=
  if pyclass_eqb self_class (__class__ class_Int128BitField)
  then Raise NotImplementedError
  else BitField.__init__ cfg self_class name 16.
End Int128BitField.

(** ** The worked example of [test.py]: a J1939 joystick message *)

Module ExtendedJoystickMessage.

Definition body : list (string * BitFieldPartition.t) :=
  [ ("a1NeutralPositionStatus", BitFieldPartition.__init__ 0 0 2 0);
    ("a1NegativePositionStatus", BitFieldPartition.__init__ 0 2 2 0);
    ("a1PositivePositionStatus", BitFieldPartition.__init__ 0 4 2 0);
    ("a1Position", BitFieldPartition.__init__ 0 6 10 0);
    ("a2NeutralPositionStatus", BitFieldPartition.__init__ 2 0 2 0);
    ("a2NegativePositionStatus", BitFieldPartition.__init__ 2 2 2 0);
    ("a2PositivePositionStatus", BitFieldPartition.__init__ 2 4 2 0);
    ("a2Position", BitFieldPartition.__init__ 2 6 10 0);
    ("a3NeutralPositionStatus", BitFieldPartition.__init__ 4 0 2 0);
    ("a3NegativePositionStatus", BitFieldPartition.__init__ 4 2 2 0);
    ("a3PositivePositionStatus", BitFieldPartition.__init__ 4 4 2 0);
    ("a3Position", BitFieldPartition.__init__ 4 6 10 0);
    ("axisPadding", BitFieldPartition.__init__ 6 0 2 0);
    ("a3DetentPositionStatus", BitFieldPartition.__init__ 6 2 2 0);
    ("a2DetentPositionStatus", BitFieldPartition.__init__ 6 4 2 0);
    ("a1DetentPositionStatus", BitFieldPartition.__init__ 6 6 2 0);
    ("b4", BitFieldPartition.__init__ 7 0 2 0);
    ("b3", BitFieldPartition.__init__ 7 2 2 0);
    ("b2", BitFieldPartition.__init__ 7 4 2 0);
    ("b1", BitFieldPartition.__init__ 7 6 2 0) ]%string.

Definition class : pyclass :=
  class_declared "ExtendedJoystickMessage" class_Int64BitField body.

(** [super().__init__(self.__class__.__name__)] *)
Definition __init__ (cfg : Config) : result BitField.t :=
  Int64BitField.__init__ cfg class "ExtendedJoystickMessage".

(** The twenty assignments of [testData], in the order of the test. *)
Definition testData_values : list (string * Z) :=
  [ ("a1NeutralPositionStatus", 0x1);
    ("a1NegativePositionStatus", 0x0);
    ("a1PositivePositionStatus", 0x0);
    ("a1Position", 0x2AA);
    ("a2NeutralPositionStatus", 0x3);
    ("a2NegativePositionStatus", 0x3);
    ("a2PositivePositionStatus", 0x3);
    ("a2Position", 0x3FF);
    ("a3NeutralPositionStatus", 0x3);
    ("a3NegativePositionStatus", 0x3);
    ("a3PositivePositionStatus", 0x3);
    ("a3Position", 0x3FF);
    ("axisPadding", 0x3);
    ("a3DetentPositionStatus", 0x3);
    ("a2DetentPositionStatus", 0x3);
    ("a1DetentPositionStatus", 0x3);
    ("b4", 0x3);
    ("b3", 0x1);
    ("b2", 0x0);
    ("b1", 0x1) ]%string.

Fixpoint assign_all (cfg : Config) (self : BitField.t)
         (values : list (string * Z)) : result BitField.t :=
  match values with
  | [] => Ok self
  | (attr, v) :: rest =>
      let* self' := BitField.set_attr_value cfg self attr v in
      assign_all cfg self' rest
  end.

End ExtendedJoystickMessage.

Definition strict : Config := {| error_check_overflow := true |}.
Definition lenient : Config := {| error_check_overflow := false |}.

#[global] Instance BitFieldPartition_eq_dec : EqDecision BitFieldPartition.t.
Proof. solve_decision. Defined.

(** ** The vocabulary of the properties

    The bit range of a partition starts at [shift] and is [length] bits
    long.  Python can evaluate [mask] and the shifts by [shift] exactly
    when neither is negative. *)

Definition positioned (p : BitFieldPartition.t) : Prop :=
  0 <= BitFieldPartition.shift p /\ 0 <= BitFieldPartition.length p.

(** The value a partition holds is within [[0, mask]]. *)
Definition within_mask (p : BitFieldPartition.t) : Prop :=
  exists m, BitFieldPartition.mask p = Ok m /\
            0 <= BitFieldPartition.value p <= m.

(** Bit [j] of the record belongs to the range of the partition. *)
Definition covers (p : BitFieldPartition.t) (j : Z) : bool :=
  (BitFieldPartition.shift p <=? j)
  && (j <? BitFieldPartition.shift p + BitFieldPartition.length p).

(** The bit a partition contributes at position [j] of the packed
    integer. *)
Definition contributes (p : BitFieldPartition.t) (j : Z) : bool :=
  covers p j
  && Z.testbit (BitFieldPartition.value p) (j - BitFieldPartition.shift p).

Definition ranges_disjoint (p q : BitFieldPartition.t) : Prop :=
  BitFieldPartition.shift p + BitFieldPartition.length p
    <= BitFieldPartition.shift q \/
  BitFieldPartition.shift q + BitFieldPartition.length q
    <= BitFieldPartition.shift p.

Definition non_overlapping (ps : list BitFieldPartition.t) : Prop :=
  forall p q, In p ps -> In q ps -> p <> q -> ranges_disjoint p q.

(** The range of the partition lies within the [nbits] of the record. *)
Definition fits (self : BitField.t) (p : BitFieldPartition.t) : Prop :=
  BitFieldPartition.shift p + BitFieldPartition.length p
    <= BitField.nbits self.

(** The partition is positioned and lies within a record of [nbytes]
    bytes. *)
Definition laid_out (nbytes : Z) (p : BitFieldPartition.t) : Prop :=
  positioned p /\
  BitFieldPartition.shift p + BitFieldPartition.length p <= nbytes * 8.

Definition names (ps : list BitFieldPartition.t) : list string :=
  map BitFieldPartition.name ps.

(** What a partition holds after [parse]. *)
Definition slice (data : Z) (p : BitFieldPartition.t) : Z :=
  Z.land (Z.shiftr data (BitFieldPartition.shift p))
         (Z.ones (BitFieldPartition.length p)).

(** The partition as [parse] leaves it. *)
Definition parsed (data : Z) (p : BitFieldPartition.t) : BitFieldPartition.t :=
  BitFieldPartition.with_value p (slice data p).

(** The integer a list of bytes stands for, least significant byte first
    ([int.from_bytes(bs, "little")]). *)
Fixpoint from_little_endian (bs : list Z) : Z :=
  match bs with
  | [] => 0
  | b :: rest => b + 256 * from_little_endian rest
  end.

(** The partitions the loop of [__init__] appends for a list of names. *)
Fixpoint templates_of (entries : list (string * attribute))
  : list BitFieldPartition.t :=
  match entries with
  | [] => []
  | (name, attr_partition template) :: rest =>
      BitFieldPartition.with_name template name :: templates_of rest
  | _ :: rest => templates_of rest
  end.

(** The copy [__init__] makes of a declared template. *)
Definition owned (d : string * BitFieldPartition.t) : BitFieldPartition.t :=
  BitFieldPartition.with_name (snd d) (fst d).

(** ** Concrete records

    A one-byte record with a three-bit and a four-bit partition, bit 3 left
    as a gap, as [class Sample(Int8BitField)] with [lo = BitFieldPartition(0,
    0, 3)] and [hi = BitFieldPartition(0, 4, 4)] builds it, holding 5 and 9. *)

Module Sample.

Definition lo : BitFieldPartition.t := BitFieldPartition.mk "lo" 0 0 3 5.
Definition hi : BitFieldPartition.t := BitFieldPartition.mk "hi" 0 4 4 9.

Definition record : BitField.t := BitField.mk "Sample" 1 [hi; lo].

Definition class : pyclass :=
  class_declared "Sample" class_Int8BitField
    [ ("lo", BitFieldPartition.__init__ 0 0 3 0);
      ("hi", BitFieldPartition.__init__ 0 4 4 0) ]%string.

End Sample.

(** ** Further vocabulary *)

#[global] Instance positioned_dec (p : BitFieldPartition.t) : Decision (positioned p).
Proof. unfold positioned. apply _. Defined.

(** Bit [j] of the integer the loop of [data_int] accumulates. *)
Definition packed_bit (ps : list BitFieldPartition.t) (j : Z) : bool :=
  existsb (fun p => contributes p j) ps.

(** Bit [j] lies in the range of some partition. *)
Definition covered (ps : list BitFieldPartition.t) (j : Z) : bool :=
  existsb (fun p => covers p j) ps.

(** What [parse] and the setter leave alone: the name and the position. *)
Definition layout (p : BitFieldPartition.t) : string * Z * Z * Z :=
  (BitFieldPartition.name p, BitFieldPartition.start_byte p,
   BitFieldPartition.start_bit p, BitFieldPartition.length p).

(** The integers of a [bytes] object, as [list(bs)] gives them. *)
Definition bytes_to_ints (bs : list Byte.byte) : list Z :=
  map (fun b => Z.of_N (Byte.to_N b)) bs.

(** A template that leaves [data_int] alone at and above the width of a
    record of [nbytes] bytes: the overflow check is off, or the template
    lies within the width, or it holds the default value 0. *)
Definition quiet (cfg : Config) (nbytes : Z) (p : BitFieldPartition.t) : Prop :=
  positioned p /\
  (error_check_overflow cfg = false \/
   BitFieldPartition.shift p + BitFieldPartition.length p <= nbytes * 8 \/
   BitFieldPartition.value p = 0).

(** The string has no space, and what follows its first space. *)
Fixpoint spaceless (s : string) : bool :=
  match s with
  | EmptyString => true
  | String c rest => negb (Ascii.eqb c " ") && spaceless rest
  end.

Fixpoint after_space (s : string) : string :=
  match s with
  | EmptyString => EmptyString
  | String c rest => if Ascii.eqb c " " then rest else after_space rest
  end.

(** A second sample: the two partitions of [Sample.record] in the other
    order, and a record whose partition reaches beyond its single byte. *)
Module Sample2.

Definition swapped : BitField.t := BitField.mk "Sample" 1 [Sample.lo; Sample.hi].

Definition wide : BitFieldPartition.t := BitFieldPartition.mk "wide" 0 6 4 0xF.

Definition overflowing : BitField.t := BitField.mk "Wide" 1 [wide].

Definition negative : BitFieldPartition.t := BitFieldPartition.mk "neg" 0 0 (-1) 0.

(** A one-byte record whose two nibbles cover all of its bits, and one whose
    second partition Python cannot shift. *)
Definition low : BitFieldPartition.t := BitFieldPartition.mk "low" 0 0 4 0.
Definition high : BitFieldPartition.t := BitFieldPartition.mk "high" 0 4 4 0.

Definition full : BitField.t := BitField.mk "Full" 1 [low; high].

Definition broken : BitField.t := BitField.mk "Broken" 1 [low; negative; high].

(** A one-byte class whose only template starts in the second byte. *)
Definition misfit : pyclass :=
  class_declared "Misfit" class_Int8BitField
    [ ("a", BitFieldPartition.__init__ 1 0 2 0) ]%string.

End Sample2.

(** * Properties *)

(** ** The unit tests of [test.py] on partitions *)

Example testProperties :
  let partition := BitFieldPartition.__init__ 2 6 10 0 in
  BitFieldPartition.mask partition = Ok 0x3FF /\
  BitFieldPartition.shift partition = 22 /\
  (let* p := BitFieldPartition.set_value strict partition 0x3FE in
   BitFieldPartition.masked_value p) = Ok 0x3FE.
Proof. repeat split. Qed.

Example testOverflow :
  let partition :=
    BitFieldPartition.with_name (BitFieldPartition.__init__ 0 4 2 0) "b1" in
  (let* p := BitFieldPartition.set_value strict partition 0x0 in
   let* p := BitFieldPartition.set_value strict p 0x1 in
   let* p := BitFieldPartition.set_value strict p 0x2 in
   let* p := BitFieldPartition.set_value strict p 0x3 in
   BitFieldPartition.set_value strict p 0x4)
  = Raise (OverflowError "b1: More than 2 bits of data (0x04)").
Proof. reflexivity. Qed.

(** ** Shifts and masks *)

Ltac case_shift :=
  match goal with
  | |- context [?n <? 0] => destruct (Z.ltb_spec n 0); try lia
  | H : context [?n <? 0] |- _ => destruct (Z.ltb_spec n 0); try lia
  end.

Lemma py_lshift_Ok (a n : Z) : 0 <= n -> py_lshift a n = Ok (Z.shiftl a n).
Proof. intros Hn. unfold py_lshift. now case_shift. Qed.

Lemma py_rshift_Ok (a n : Z) : 0 <= n -> py_rshift a n = Ok (Z.shiftr a n).
Proof. intros Hn. unfold py_rshift. now case_shift. Qed.

Lemma py_lshift_inv (a n r : Z) :
  py_lshift a n = Ok r -> 0 <= n /\ r = Z.shiftl a n.
Proof. unfold py_lshift. case_shift; [discriminate|]. intros [= <-]. auto. Qed.

Lemma py_rshift_inv (a n r : Z) :
  py_rshift a n = Ok r -> 0 <= n /\ r = Z.shiftr a n.
Proof. unfold py_rshift. case_shift; [discriminate|]. intros [= <-]. auto. Qed.

Lemma py_lshift_not_overflow (a n : Z) : is_OverflowError (py_lshift a n) = false.
Proof. unfold py_lshift. now destruct (n <? 0). Qed.

Lemma py_rshift_not_overflow (a n : Z) : is_OverflowError (py_rshift a n) = false.
Proof. unfold py_rshift. now destruct (n <? 0). Qed.

Lemma bind_Ok {A B : Type} (r : result A) (k : A -> result B) (b : B) :
  bind r k = Ok b -> exists a, r = Ok a /\ k a = Ok b.
Proof. destruct r as [a|e]; simpl; [eauto | discriminate]. Qed.

Lemma partition_mask_Ok (p : BitFieldPartition.t) :
  0 <= BitFieldPartition.length p ->
  BitFieldPartition.mask p = Ok (Z.ones (BitFieldPartition.length p)).
Proof.
  intros Hl. unfold BitFieldPartition.mask.
  rewrite py_lshift_Ok by assumption. simpl.
  now rewrite Z.shiftl_1_l, Z.ones_equiv, Z.sub_1_r.
Qed.

Lemma partition_mask_inv (p : BitFieldPartition.t) (m : Z) :
  BitFieldPartition.mask p = Ok m ->
  0 <= BitFieldPartition.length p /\ m = Z.ones (BitFieldPartition.length p).
Proof.
  unfold BitFieldPartition.mask. intros H.
  apply bind_Ok in H as (one & H1 & H2).
  apply py_lshift_inv in H1 as [Hl ->]. split; [assumption|].
  injection H2 as <-. now rewrite Z.shiftl_1_l, Z.ones_equiv, Z.sub_1_r.
Qed.

Lemma record_mask_Ok (self : BitField.t) :
  0 <= BitField.nbits self ->
  BitField.mask self = Ok (Z.ones (BitField.nbits self)).
Proof.
  intros Hl. unfold BitField.mask.
  rewrite py_lshift_Ok by assumption. simpl.
  now rewrite Z.shiftl_1_l, Z.ones_equiv, Z.sub_1_r.
Qed.

Lemma record_mask_inv (self : BitField.t) (m : Z) :
  BitField.mask self = Ok m ->
  0 <= BitField.nbits self /\ m = Z.ones (BitField.nbits self).
Proof.
  unfold BitField.mask. intros H.
  apply bind_Ok in H as (one & H1 & H2).
  apply py_lshift_inv in H1 as [Hl ->]. split; [assumption|].
  injection H2 as <-. now rewrite Z.shiftl_1_l, Z.ones_equiv, Z.sub_1_r.
Qed.

Lemma masked_value_Ok (p : BitFieldPartition.t) :
  0 <= BitFieldPartition.length p ->
  BitFieldPartition.masked_value p
  = Ok (Z.land (BitFieldPartition.value p) (Z.ones (BitFieldPartition.length p))).
Proof.
  intros Hl. unfold BitFieldPartition.masked_value.
  now rewrite partition_mask_Ok.
Qed.

Lemma parse_Ok (p : BitFieldPartition.t) (data : Z) :
  positioned p ->
  BitFieldPartition.parse p data = Ok (parsed data p).
Proof.
  intros [Hs Hl]. unfold BitFieldPartition.parse.
  rewrite py_rshift_Ok by assumption. simpl.
  now rewrite partition_mask_Ok.
Qed.

Lemma parse_inv (p p' : BitFieldPartition.t) (data : Z) :
  BitFieldPartition.parse p data = Ok p' ->
  positioned p /\ p' = parsed data p.
Proof.
  unfold BitFieldPartition.parse. intros H.
  apply bind_Ok in H as (low & H1 & H).
  apply bind_Ok in H as (m & H2 & H).
  apply py_rshift_inv in H1 as [Hs ->].
  apply partition_mask_inv in H2 as [Hl ->].
  injection H as <-. now split.
Qed.

(** ** The bits of the packed integer *)

(** One step of the loop of [data_int], seen bit by bit. *)
Lemma testbit_contribution (v sh n j : Z) :
  0 <= sh -> 0 <= n -> 0 <= j ->
  Z.testbit (Z.shiftl (Z.land v (Z.ones n)) sh) j
  = ((sh <=? j) && (j <? sh + n)) && Z.testbit v (j - sh).
Proof.
  intros Hsh Hn Hj.
  rewrite Z.shiftl_spec, Z.land_spec, Z.testbit_ones by lia.
  destruct (Z.leb_spec sh j), (Z.ltb_spec j (sh + n)),
    (Z.leb_spec 0 (j - sh)), (Z.ltb_spec (j - sh) n);
    try lia; simpl; rewrite ?andb_true_r, ?andb_false_r; try reflexivity.
Qed.

Lemma testbit_slice (data : Z) (p : BitFieldPartition.t) (k : Z) :
  positioned p -> 0 <= k ->
  Z.testbit (slice data p) k
  = Z.testbit data (k + BitFieldPartition.shift p)
    && (k <? BitFieldPartition.length p).
Proof.
  intros [Hs Hl] Hk. unfold slice.
  now rewrite Z.land_spec, Z.shiftr_spec, Z.testbit_ones_nonneg by lia.
Qed.

Lemma accumulate_inv (ps : list BitFieldPartition.t) :
  forall data D,
    BitField.accumulate ps data = Ok D ->
    Forall positioned ps /\
    (0 <= data -> 0 <= D) /\
    (forall j, 0 <= j ->
       Z.testbit D j = Z.testbit data j || existsb (fun p => contributes p j) ps).
Proof.
  induction ps as [|p ps IH]; simpl; intros data D H.
  - injection H as <-. repeat split; auto.
    intros j _. now rewrite orb_false_r.
  - apply bind_Ok in H as (v & Hv & H).
    apply bind_Ok in H as (shifted & Hsh & H).
    unfold BitFieldPartition.masked_value in Hv.
    apply bind_Ok in Hv as (m & Hm & Hv).
    apply partition_mask_inv in Hm as [Hl ->]. injection Hv as <-.
    apply py_lshift_inv in Hsh as [Hs ->].
    apply IH in H as (Hps & Hpos & Hbits).
    split; [constructor; [split|]; assumption|]. split.
    + intros Hd. apply Hpos. apply Z.lor_nonneg. split; [assumption|].
      apply Z.shiftl_nonneg, Z.land_nonneg. right.
      rewrite Z.ones_equiv. pose proof (Z.pow_pos_nonneg 2 _ eq_refl Hl). lia.
    + intros j Hj. rewrite Hbits, Z.lor_spec, testbit_contribution by assumption.
      unfold contributes, covers. now rewrite orb_assoc.
Qed.

Lemma accumulate_Ok (ps : list BitFieldPartition.t) :
  Forall positioned ps ->
  forall data, exists D, BitField.accumulate ps data = Ok D.
Proof.
  induction 1 as [|p ps [Hs Hl] _ IH]; simpl; intros data; [eauto|].
  rewrite masked_value_Ok by assumption. simpl.
  rewrite py_lshift_Ok by assumption. simpl. apply IH.
Qed.

Lemma data_int_inv (cfg : Config) (self : BitField.t) (d : Z) :
  BitField.data_int cfg self = Ok d ->
  exists D,
    BitField.accumulate (BitField.partitions self) 0 = Ok D /\
    0 <= BitField.nbits self /\
    d = Z.land D (Z.ones (BitField.nbits self)) /\
    (error_check_overflow cfg = true -> Z.shiftr D (BitField.nbits self) <= 0).
Proof.
  unfold BitField.data_int. intros H.
  apply bind_Ok in H as (D & HD & H).
  apply bind_Ok in H as (over & Hover & H).
  destruct over; [discriminate|].
  apply bind_Ok in H as (m & Hm & H).
  apply record_mask_inv in Hm as [Hn ->]. injection H as <-.
  exists D. repeat split; try assumption.
  intros Hflag. unfold checked in Hover. rewrite Hflag in Hover.
  apply bind_Ok in Hover as (high & Hhigh & Hover).
  apply py_rshift_inv in Hhigh as [_ ->]. injection Hover as Hover.
  apply Z.ltb_ge in Hover. exact Hover.
Qed.

Lemma data_int_Ok (cfg : Config) (self : BitField.t) (D : Z) :
  BitField.accumulate (BitField.partitions self) 0 = Ok D ->
  0 <= BitField.nbits self ->
  (error_check_overflow cfg = true -> Z.shiftr D (BitField.nbits self) <= 0) ->
  BitField.data_int cfg self = Ok (Z.land D (Z.ones (BitField.nbits self))).
Proof.
  intros HD Hn Hhigh. unfold BitField.data_int. rewrite HD. simpl.
  unfold checked. destruct (error_check_overflow cfg) eqn:Hflag.
  - rewrite py_rshift_Ok by assumption. simpl.
    specialize (Hhigh eq_refl). apply Z.ltb_ge in Hhigh. rewrite Hhigh.
    now rewrite record_mask_Ok.
  - simpl. now rewrite record_mask_Ok.
Qed.

(** A packed integer of a non-negative accumulator that passes the strict
    check has no bit at or above [nbits]. *)
Lemma no_high_bits (D n : Z) :
  0 <= D -> 0 <= n -> Z.shiftr D n <= 0 ->
  forall j, n <= j -> Z.testbit D j = false.
Proof.
  intros HD Hn Hhigh j Hj.
  assert (Z.shiftr D n = 0) as E
    by (pose proof (proj2 (Z.shiftr_nonneg D n) HD); lia).
  replace j with ((j - n) + n) by lia.
  rewrite <- Z.shiftr_spec by lia. rewrite E. apply Z.bits_0.
Qed.

Lemma high_bits_shiftr (D n : Z) :
  0 <= n -> (forall j, n <= j -> Z.testbit D j = false) -> Z.shiftr D n = 0.
Proof.
  intros Hn Hbits. apply Z.bits_inj'. intros j Hj.
  rewrite Z.shiftr_spec, Z.bits_0 by assumption. apply Hbits. lia.
Qed.

(** ** The loop of [parse_data_int] *)

Lemma parse_each_Ok (data : Z) (ps : list BitFieldPartition.t) :
  Forall positioned ps ->
  BitField.parse_each ps data = (Ok tt, map (parsed data) ps).
Proof.
  induction 1 as [|p ps Hp _ IH]; simpl; [reflexivity|].
  rewrite parse_Ok by assumption. now rewrite IH.
Qed.

Lemma parse_each_not_overflow (data : Z) (ps : list BitFieldPartition.t) :
  is_OverflowError (fst (BitField.parse_each ps data)) = false.
Proof.
  induction ps as [|p ps IH]; simpl; [reflexivity|].
  destruct (BitFieldPartition.parse p data) as [p'|e] eqn:E.
  - destruct (BitField.parse_each ps data). exact IH.
  - simpl. unfold BitFieldPartition.parse in E.
    destruct (py_rshift data (BitFieldPartition.shift p)) as [low|e1] eqn:E1.
    + simpl in E. unfold BitFieldPartition.mask in E.
      destruct (py_lshift 1 (BitFieldPartition.length p)) as [one|e2] eqn:E2;
        simpl in E; [discriminate|].
      injection E as <-. pose proof (py_lshift_not_overflow 1 (BitFieldPartition.length p)) as N.
      now rewrite E2 in N.
    + simpl in E. injection E as <-.
      pose proof (py_rshift_not_overflow data (BitFieldPartition.shift p)) as N.
      now rewrite E1 in N.
Qed.

Lemma positioned_parsed (data : Z) (ps : list BitFieldPartition.t) :
  Forall positioned ps -> Forall positioned (map (parsed data) ps).
Proof. intros H. apply Forall_map. exact H. Qed.

Lemma existsb_and_r {A : Type} (f : A -> bool) (b : bool) (l : list A) :
  existsb (fun x => f x && b) l = existsb f l && b.
Proof.
  induction l as [|x l IH]; simpl; [reflexivity|].
  rewrite IH. now destruct (f x), (existsb f l), b.
Qed.

Lemma contributes_parsed (data : Z) (p : BitFieldPartition.t) (j : Z) :
  positioned p -> 0 <= j ->
  contributes (parsed data p) j = covers p j && Z.testbit data j.
Proof.
  intros Hp Hj. unfold contributes, covers.
  change (BitFieldPartition.shift (parsed data p)) with (BitFieldPartition.shift p).
  change (BitFieldPartition.length (parsed data p)) with (BitFieldPartition.length p).
  change (BitFieldPartition.value (parsed data p)) with (slice data p).
  destruct (Z.leb_spec (BitFieldPartition.shift p) j); simpl; [|reflexivity].
  destruct (Z.ltb_spec j (BitFieldPartition.shift p + BitFieldPartition.length p));
    simpl; [|reflexivity].
  rewrite testbit_slice by (assumption || lia).
  replace (j - BitFieldPartition.shift p + BitFieldPartition.shift p) with j by lia.
  destruct (Z.ltb_spec (j - BitFieldPartition.shift p) (BitFieldPartition.length p));
    [now rewrite andb_true_r | lia].
Qed.

Lemma existsb_contributes_parsed (data : Z) (ps : list BitFieldPartition.t) (j : Z) :
  Forall positioned ps -> 0 <= j ->
  existsb (fun p => contributes p j) (map (parsed data) ps)
  = existsb (fun p => covers p j) ps && Z.testbit data j.
Proof.
  intros Hps Hj. rewrite <- existsb_and_r.
  induction Hps as [|p ps Hp _ IH]; simpl; [reflexivity|].
  now rewrite IH, contributes_parsed.
Qed.

Lemma contributes_covered (ps : list BitFieldPartition.t) (j : Z) :
  existsb (fun p => contributes p j) ps = true ->
  existsb (fun p => covers p j) ps = true.
Proof.
  rewrite !existsb_exists. intros (p & Hin & Hc).
  exists p. split; [assumption|].
  unfold contributes in Hc. now apply andb_prop in Hc as [Hc _].
Qed.

(** Packing what [parse_data_int] stored gives back the parsed integer,
    provided that integer was itself packed from the same partitions. *)
Lemma repack (ps : list BitFieldPartition.t) (n D D' : Z) :
  0 <= n ->
  BitField.accumulate ps 0 = Ok D ->
  BitField.accumulate (map (parsed (Z.land D (Z.ones n))) ps) 0 = Ok D' ->
  D' = Z.land D (Z.ones n).
Proof.
  intros Hn HD HD'.
  apply accumulate_inv in HD as (Hps & _ & HbD).
  apply accumulate_inv in HD' as (_ & _ & HbD').
  apply Z.bits_inj'. intros j Hj.
  rewrite HbD', Z.bits_0 by assumption. simpl.
  rewrite existsb_contributes_parsed by assumption.
  rewrite Z.land_spec, HbD, Z.bits_0 by assumption. simpl.
  destruct (existsb (fun p => contributes p j) ps) eqn:E.
  - now rewrite (contributes_covered _ _ E).
  - simpl. apply andb_false_r.
Qed.

(** ** Round trip *)

Lemma land_ones_high (D n j : Z) :
  0 <= n -> n <= j -> Z.testbit (Z.land D (Z.ones n)) j = false.
Proof.
  intros Hn Hj. rewrite Z.land_spec, Z.testbit_ones_nonneg by lia.
  destruct (Z.ltb_spec j n); [lia|]. apply andb_false_r.
Qed.

Lemma land_ones_twice (D n : Z) :
  Z.land (Z.land D (Z.ones n)) (Z.ones n) = Z.land D (Z.ones n).
Proof. now rewrite <- Z.land_assoc, Z.land_diag. Qed.

(** C1. Pack, unpack, pack: when the partitions of a record hold values
    within [[0, mask]] and [data_int] returns [d], then
    [parse_data_int(d)] succeeds and [data_int] read again returns [d],
    whatever the strictness flag is at either reading. *)
Theorem roundtrip_data_int (cfg cfg' : Config) (self : BitField.t) (d : Z) :
  Forall within_mask (BitField.partitions self) ->
  BitField.data_int cfg self = Ok d ->
  exists self',
    BitField.parse_data_int self d = (Ok tt, self') /\
    BitField.data_int cfg' self' = Ok d.
Proof.
  intros _ Hd.
  apply data_int_inv in Hd as (D & HD & Hn & -> & _).
  destruct (accumulate_inv _ _ _ HD) as (Hps & _ & _).
  pose (d := Z.land D (Z.ones (BitField.nbits self))).
  pose (self' := BitField.with_partitions self
                   (map (parsed d) (BitField.partitions self))).
  exists self'. split.
  - unfold BitField.parse_data_int. now rewrite parse_each_Ok.
  - destruct (accumulate_Ok _ (positioned_parsed d _ Hps) 0) as [D' HD'].
    pose proof (repack _ _ _ _ Hn HD HD') as ->.
    assert (error_check_overflow cfg' = true ->
            Z.shiftr d (BitField.nbits self') <= 0) as Hhigh.
    { intros _. change (BitField.nbits self') with (BitField.nbits self).
      rewrite (high_bits_shiftr d (BitField.nbits self));
        [reflexivity | exact Hn |].
      intros j Hj. now apply land_ones_high. }
    pose proof (data_int_Ok cfg' self' d HD' Hn Hhigh) as R.
    change (BitField.nbits self') with (BitField.nbits self) in R.
    unfold d in R. rewrite land_ones_twice in R. exact R.
Qed.

(** The round trip on the sample record, packed with the flag set and read back with the flag cleared. *)
Lemma roundtrip_data_int_witness :
  Forall within_mask (BitField.partitions Sample.record) /\
  BitField.data_int strict Sample.record = Ok 0x95 /\
  exists self',
    BitField.parse_data_int Sample.record 0x95 = (Ok tt, self') /\
    BitField.data_int lenient self' = Ok 0x95.
Proof.
  assert (Forall within_mask (BitField.partitions Sample.record)) as Hw.
  { repeat constructor.
    - exists 15. split; [reflexivity | simpl; lia].
    - exists 7. split; [reflexivity | simpl; lia]. }
  assert (BitField.data_int strict Sample.record = Ok 0x95) as Hd
    by reflexivity.
  split; [exact Hw|]. split; [exact Hd|].
  exact (roundtrip_data_int strict lenient Sample.record 0x95 Hw Hd).
Defined.

(** ** The joystick message of [test.py] *)

(** C2. The record built by [ExtendedJoystickMessage()], after the twenty
    assignments of [testData], packs to [0x47FFFFFFFFFFAA81] and to the
    bytes [81 AA FF FF FF FF FF 47]; a fresh record that parses
    [0x47FFFFFFFFFFAA81] packs to the same integer.  This holds with the
    strictness flag set (the default) and cleared. *)
Theorem joystick_scenario (cfg : Config) :
  exists fresh ejm parsed_ejm,
    ExtendedJoystickMessage.__init__ cfg = Ok fresh /\
    ExtendedJoystickMessage.assign_all cfg fresh
      ExtendedJoystickMessage.testData_values = Ok ejm /\
    BitField.data_int cfg ejm = Ok 0x47FFFFFFFFFFAA81 /\
    BitField.data_ints cfg ejm
      = Ok [0x81; 0xAA; 0xFF; 0xFF; 0xFF; 0xFF; 0xFF; 0x47] /\
    BitField.parse_data_int fresh 0x47FFFFFFFFFFAA81 = (Ok tt, parsed_ejm) /\
    BitField.data_int cfg parsed_ejm = Ok 0x47FFFFFFFFFFAA81.
Proof.
  destruct cfg as [[|]];
    do 3 eexists; (split; [vm_compute; reflexivity|]);
    (split; [vm_compute; reflexivity|]);
    (split; [vm_compute; reflexivity|]);
    (split; [vm_compute; reflexivity|]);
    (split; [vm_compute; reflexivity|]); vm_compute; reflexivity.
Qed.

(** ** Construction and the order of [partitions] *)

Lemma string_compare_trans (a : string) :
  forall b c,
    String.compare a b <> Gt -> String.compare b c <> Gt ->
    String.compare a c <> Gt.
Proof.
  induction a as [|x a IH]; intros [|y b] [|z c]; simpl; try easy.
  unfold Ascii.compare.
  destruct (N.compare_spec (N_of_ascii x) (N_of_ascii y)),
    (N.compare_spec (N_of_ascii y) (N_of_ascii z)),
    (N.compare_spec (N_of_ascii x) (N_of_ascii z));
    try lia; try easy; eauto.
Qed.

#[global] Instance name_le_trans : Transitive name_le.
Proof.
  intros a b c. unfold name_le, String.leb. intros Hab Hbc.
  pose proof (string_compare_trans a b c) as T.
  destruct (String.compare a b), (String.compare b c), (String.compare a c);
    try reflexivity; try discriminate; exfalso; apply T;
    (discriminate || reflexivity).
Qed.

#[global] Instance name_le_total : Total name_le.
Proof. intros a b. apply String.leb_total. Qed.

#[global] Instance entry_le_trans : Transitive entry_le.
Proof. intros a b c. unfold entry_le. apply name_le_trans. Qed.

#[global] Instance entry_le_total : Total entry_le.
Proof. intros a b. unfold entry_le. apply name_le_total. Qed.

Lemma discover_partitions (cfg : Config) (entries : list (string * attribute)) :
  forall self self',
    BitField.discover cfg entries self = Ok self' ->
    BitField.partitions self' = BitField.partitions self ++ templates_of entries /\
    BitField.name self' = BitField.name self /\
    BitField.nbytes self' = BitField.nbytes self.
Proof.
  induction entries as [|[n [tpl|p|]] rest IH]; simpl; intros self self' H.
  - injection H as <-. now rewrite app_nil_r.
  - apply IH in H as (Hp & Hn & Hb). simpl in *.
    rewrite Hp, <- app_assoc. auto.
  - apply bind_Ok in H as (u & _ & H). now apply IH.
  - now apply IH.
Qed.

Lemma templates_of_app (l1 l2 : list (string * attribute)) :
  templates_of (l1 ++ l2) = templates_of l1 ++ templates_of l2.
Proof.
  induction l1 as [|[n [tpl|p|]] l1 IH]; simpl; [reflexivity| |assumption..].
  now rewrite IH.
Qed.

Lemma templates_of_Permutation (l1 l2 : list (string * attribute)) :
  Permutation l1 l2 -> Permutation (templates_of l1) (templates_of l2).
Proof.
  induction 1 as [|[n [tpl|p|]] l1 l2 _ IH
                 |[n1 [t1|p1|]] [n2 [t2|p2|]] l| l1 l2 l3 _ IH1 _ IH2];
    simpl; try reflexivity; try assumption.
  - now constructor.
  - apply perm_swap.
  - now transitivity (templates_of l2).
Qed.

Lemma templates_of_declared (decls : list (string * BitFieldPartition.t)) :
  templates_of (map (fun d => (fst d, attr_partition (snd d))) decls)
  = map owned decls.
Proof. induction decls as [|[n t] decls IH]; simpl; [reflexivity|]. now rewrite IH. Qed.

Lemma names_owned (decls : list (string * BitFieldPartition.t)) :
  names (map owned decls) = map fst decls.
Proof. induction decls as [|[n t] decls IH]; simpl; [reflexivity|]. now rewrite <- IH. Qed.

Lemma templates_of_bounded (e : string * attribute) (l : list (string * attribute)) :
  Forall (entry_le e) l -> Forall (name_le (fst e)) (names (templates_of l)).
Proof.
  induction 1 as [|[n [tpl|p|]] l H _ IH]; simpl; try assumption; constructor;
    assumption.
Qed.

Lemma templates_of_sorted (l : list (string * attribute)) :
  StronglySorted entry_le l -> StronglySorted name_le (names (templates_of l)).
Proof.
  induction 1 as [|[n [tpl|p|]] l _ IH H]; simpl; try assumption; constructor.
  - assumption.
  - exact (templates_of_bounded _ _ H).
Qed.

Lemma dir_templates (C : pyclass) :
  Permutation (templates_of (dir C)) (map owned (declared_partitions C)) /\
  StronglySorted name_le (names (templates_of (dir C))).
Proof.
  split.
  - unfold dir. rewrite <- templates_of_declared.
    etransitivity.
    + apply templates_of_Permutation, merge_sort_Permutation.
    + rewrite templates_of_app. simpl. now rewrite app_nil_r.
  - apply templates_of_sorted. unfold dir.
    apply StronglySorted_merge_sort; apply _.
Qed.

(** C3, a counterexample to declaration order.  The joystick message declares
    [a1NeutralPositionStatus] first, and the record [__init__] builds lists
    [a1DetentPositionStatus] first: [partitions] is not in declaration
    order. *)
Lemma partitions_not_in_declaration_order :
  exists ejm,
    ExtendedJoystickMessage.__init__ strict = Ok ejm /\
    BitField.partitions ejm
      <> map owned (declared_partitions ExtendedJoystickMessage.class) /\
    hd_error (names (BitField.partitions ejm))
      = Some "a1DetentPositionStatus"%string /\
    hd_error (map fst (declared_partitions ExtendedJoystickMessage.class))
      = Some "a1NeutralPositionStatus"%string.
Proof.
  eexists. split; [vm_compute; reflexivity|].
  split; [|split; reflexivity].
  intros E. apply (f_equal names) in E. vm_compute in E. discriminate E.
Qed.

(** C3, amended.  For every record type (BitField, a fixed-width class or
    a class derived from one) whose templates have names of their own
    (pairwise different, none the name of an attribute every [BitField]
    instance has, none with two leading underscores), the [partitions] of
    a constructed instance are the owned copies of the declared templates,
    each named after its declaration, in ascending order of their names
    (the order in which [dir] enumerates the attributes); the names are
    pairwise different. *)
Theorem partitions_in_name_order
        (cfg : Config) (C : pyclass) (name : string) (nbytes : Z)
        (self : BitField.t) :
  well_declared C ->
  BitField.__init__ cfg C name nbytes = Ok self ->
  Permutation (BitField.partitions self) (map owned (declared_partitions C)) /\
  StronglySorted name_le (names (BitField.partitions self)) /\
  NoDup (names (BitField.partitions self)).
Proof.
  intros (_ & Hnodup & _) H. unfold BitField.__init__ in H.
  destruct (pyclass_eqb C (__class__ class_BitField)); [discriminate|].
  apply discover_partitions in H as (Hp & _ & _). simpl in Hp. rewrite Hp.
  destruct (dir_templates C) as [Hperm Hsorted].
  repeat split; try assumption.
  assert (Permutation (names (templates_of (dir C)))
                      (map fst (declared_partitions C))) as Hnames.
  { rewrite <- names_owned. unfold names. now apply Permutation_map. }
  now rewrite Hnames.
Qed.

(** The sample class declares [lo] before [hi]; its instance lists [hi] before [lo]. *)
Lemma partitions_in_name_order_witness :
  well_declared Sample.class /\
  BitField.__init__ strict Sample.class "Sample" 1
  = Ok (BitField.mk "Sample" 1
          [BitFieldPartition.mk "hi" 0 4 4 0; BitFieldPartition.mk "lo" 0 0 3 0]) /\
  StronglySorted name_le ["hi"; "lo"]%string.
Proof.
  assert (well_declared Sample.class) as Hw.
  { split; [reflexivity|]. split.
    - simpl. repeat constructor; intros H;
        repeat (apply elem_of_cons in H as [H|H]; [discriminate H|]);
        now apply elem_of_nil in H.
    - simpl. repeat (constructor; [split; [|reflexivity]; simpl; intros H;
        repeat (destruct H as [H|H]; [discriminate H|]); exact H|]).
      constructor. }
  assert (BitField.__init__ strict Sample.class "Sample" 1
          = Ok (BitField.mk "Sample" 1
                  [BitFieldPartition.mk "hi" 0 4 4 0;
                   BitFieldPartition.mk "lo" 0 0 3 0])) as Hi
    by (vm_compute; reflexivity).
  split; [exact Hw|]. split; [exact Hi|].
  exact (proj1 (proj2 (partitions_in_name_order strict Sample.class "Sample" 1 _ Hw Hi))).
Defined.

(** C4, the code at the failing input.  The guard of [__init__] compares
    the class of the instance with [BitField.__class__], which is the
    metaclass [type] and not [BitField]: the comparison is false for every
    instance, and [BitField("x", 1)] returns a record without partitions,
    with the strictness flag set or cleared.  The guards of the fixed-width
    classes are written the same way. *)
Theorem abstract_base_constructs (cfg : Config) (name : string) :
  pyclass_eqb class_BitField (__class__ class_BitField) = false /\
  BitField.__init__ cfg class_BitField name 1 = Ok (BitField.mk name 1 []) /\
  Int8BitField.__init__ cfg class_Int8BitField name = Ok (BitField.mk name 1 []).
Proof.
  destruct cfg as [[|]]; repeat split; vm_compute; reflexivity.
Qed.

(** ** Assignment to [value] *)

Lemma shiftr_ones (n : Z) : 0 <= n -> Z.shiftr (Z.ones n) n = 0.
Proof.
  intros Hn. rewrite Z.shiftr_div_pow2, Z.ones_equiv by assumption.
  pose proof (Z.pow_pos_nonneg 2 n eq_refl Hn). apply Z.div_small. lia.
Qed.

Lemma shiftr_succ_ones (n : Z) : 0 <= n -> Z.shiftr (Z.ones n + 1) n = 1.
Proof.
  intros Hn. rewrite Z.shiftr_div_pow2, Z.ones_equiv by assumption.
  pose proof (Z.pow_pos_nonneg 2 n eq_refl Hn).
  replace (Z.pred (2 ^ n) + 1) with (2 ^ n) by lia. apply Z.div_same. lia.
Qed.

(** C5. Assigning [mask] to [value] never raises.  With the strictness flag
    set, assigning [mask + 1] raises [OverflowError] with a message that
    names the partition, its length and the value; for a two-bit partition
    named [b1] and the value [0x4] the message is
    [b1: More than 2 bits of data (0x04)]. *)
Theorem overflow_boundary (cfg : Config) (p : BitFieldPartition.t) (m : Z) :
  BitFieldPartition.mask p = Ok m ->
  BitFieldPartition.set_value cfg p m = Ok (BitFieldPartition.with_value p m) /\
  (error_check_overflow cfg = true ->
   BitFieldPartition.set_value cfg p (m + 1)
   = Raise (OverflowError
              (BitFieldPartition.name p +:+ ": More than "
                 +:+ py_str (BitFieldPartition.length p)
                 +:+ " bits of data (0x" +:+ py_format_02X (m + 1) +:+ ")"))) /\
  (forall start_byte start_bit held,
     BitFieldPartition.set_value strict
       (BitFieldPartition.mk "b1" start_byte start_bit 2 held) 0x4
     = Raise (OverflowError "b1: More than 2 bits of data (0x04)")).
Proof.
  intros Hm. apply partition_mask_inv in Hm as [Hl ->].
  unfold BitFieldPartition.set_value, checked. repeat split.
  - destruct (error_check_overflow cfg); [|reflexivity].
    rewrite py_rshift_Ok by assumption. simpl.
    now rewrite shiftr_ones.
  - intros ->. rewrite py_rshift_Ok by assumption. simpl.
    now rewrite shiftr_succ_ones.
Qed.

(** The boundary on the two-bit partition of [testOverflow]: 3 is stored, 4 is refused. *)
Lemma overflow_boundary_witness :
  BitFieldPartition.mask (BitFieldPartition.mk "b1" 0 4 2 0) = Ok 3 /\
  BitFieldPartition.set_value strict (BitFieldPartition.mk "b1" 0 4 2 0) 3
  = Ok (BitFieldPartition.mk "b1" 0 4 2 3) /\
  BitFieldPartition.set_value strict (BitFieldPartition.mk "b1" 0 4 2 0) 4
  = Raise (OverflowError "b1: More than 2 bits of data (0x04)").
Proof.
  assert (BitFieldPartition.mask (BitFieldPartition.mk "b1" 0 4 2 0) = Ok 3)
    as Hm by reflexivity.
  destruct (overflow_boundary strict _ _ Hm) as (Hat & Hover & _).
  split; [exact Hm|]. split; [exact Hat|]. exact (Hover eq_refl).
Defined.

(** C10. A negative value passes the overflow check: assigning it never
    raises [OverflowError], with the strictness flag set or cleared; on a
    partition of non-negative length the value shifted right by the length
    is still negative, the assignment succeeds and stores the value as it
    is, and [masked_value] then reads [value & mask]. *)
Theorem negative_value_bypasses_check
        (cfg : Config) (p : BitFieldPartition.t) (v : Z) :
  v < 0 ->
  is_OverflowError (BitFieldPartition.set_value cfg p v) = false /\
  (0 <= BitFieldPartition.length p ->
   exists m,
     Z.shiftr v (BitFieldPartition.length p) < 0 /\
     BitFieldPartition.mask p = Ok m /\
     BitFieldPartition.set_value cfg p v = Ok (BitFieldPartition.with_value p v) /\
     BitFieldPartition.value (BitFieldPartition.with_value p v) = v /\
     BitFieldPartition.masked_value (BitFieldPartition.with_value p v)
     = Ok (Z.land v m)).
Proof.
  intros Hv.
  assert (0 <= BitFieldPartition.length p ->
          BitFieldPartition.set_value cfg p v
          = Ok (BitFieldPartition.with_value p v)) as Hset.
  { intros Hl. unfold BitFieldPartition.set_value, checked.
    destruct (error_check_overflow cfg); [|reflexivity].
    rewrite py_rshift_Ok by assumption. simpl.
    pose proof (proj2 (Z.shiftr_neg v (BitFieldPartition.length p)) Hv).
    destruct (Z.ltb_spec 0 (Z.shiftr v (BitFieldPartition.length p)));
      [lia | reflexivity]. }
  split.
  - destruct (Z.le_gt_cases 0 (BitFieldPartition.length p)) as [Hl|Hl].
    + now rewrite Hset.
    + unfold BitFieldPartition.set_value, checked, py_rshift.
      destruct (error_check_overflow cfg); [|reflexivity].
      destruct (Z.ltb_spec (BitFieldPartition.length p) 0); [reflexivity | lia].
  - intros Hl. exists (Z.ones (BitFieldPartition.length p)).
    split; [now apply Z.shiftr_neg|].
    split; [now apply partition_mask_Ok|]. split; [now apply Hset|].
    split; [reflexivity|]. now rewrite masked_value_Ok.
Qed.

(** Assigning -1 to a two-bit partition with the flag set: stored, and read back as 3. *)
Lemma negative_value_bypasses_check_witness :
  -1 < 0 /\
  BitFieldPartition.set_value strict (BitFieldPartition.mk "b1" 0 4 2 0) (-1)
  = Ok (BitFieldPartition.mk "b1" 0 4 2 (-1)) /\
  BitFieldPartition.masked_value (BitFieldPartition.mk "b1" 0 4 2 (-1)) = Ok 3.
Proof.
  assert (-1 < 0) as Hv by lia.
  destruct (negative_value_bypasses_check strict
              (BitFieldPartition.mk "b1" 0 4 2 0) (-1) Hv) as [_ H].
  assert (0 <= BitFieldPartition.length (BitFieldPartition.mk "b1" 0 4 2 0))
    as Hl by (simpl; lia).
  destruct (H Hl) as (m & _ & Hm & Hset & _ & Hread).
  injection Hm as <-.
  split; [exact Hv|]. split; [exact Hset | exact Hread].
Defined.

(** ** Parsing *)

Lemma land_ones_bounds (a n : Z) :
  0 <= n -> 0 <= Z.land a (Z.ones n) <= Z.ones n.
Proof.
  intros Hn. rewrite Z.land_ones, Z.ones_equiv by assumption.
  pose proof (Z.pow_pos_nonneg 2 n eq_refl Hn).
  pose proof (Z.mod_pos_bound a (2 ^ n)). lia.
Qed.

Lemma set_value_within (cfg : Config) (p : BitFieldPartition.t) (v : Z) :
  0 <= BitFieldPartition.length p ->
  0 <= v <= Z.ones (BitFieldPartition.length p) ->
  BitFieldPartition.set_value cfg p v = Ok (BitFieldPartition.with_value p v).
Proof.
  intros Hl Hv. unfold BitFieldPartition.set_value, checked.
  destruct (error_check_overflow cfg); [|reflexivity].
  rewrite py_rshift_Ok by assumption. simpl.
  rewrite Z.shiftr_div_pow2, Z.div_small; [reflexivity| |assumption].
  rewrite Z.ones_equiv in Hv. lia.
Qed.

(** C7. [parse] and [parse_data_int] never raise [OverflowError], for any
    partition, record and integer.  On a partition whose shift and length
    are not negative, [parse] succeeds and leaves the partition where it
    was, holding [(raw_integer >> shift) & mask] as its [value]; that value
    lies within [[0, mask]], so that even the checked setter would accept
    it with the strictness flag set.  On a record of such partitions
    [parse_data_int] succeeds, and every partition then holds its own
    [(raw_integer >> shift) & mask]. *)
Theorem parse_never_fails (self : BitField.t) (raw : Z) :
  (forall p, is_OverflowError (BitFieldPartition.parse p raw) = false) /\
  is_OverflowError (fst (BitField.parse_data_int self raw)) = false /\
  (forall p, positioned p ->
     exists m p',
       BitFieldPartition.mask p = Ok m /\
       BitFieldPartition.parse p raw = Ok p' /\
       BitFieldPartition.value p'
       = Z.land (Z.shiftr raw (BitFieldPartition.shift p)) m /\
       layout p' = layout p /\
       0 <= BitFieldPartition.value p' <= m /\
       forall cfg,
         BitFieldPartition.set_value cfg p (BitFieldPartition.value p')
         = BitFieldPartition.parse p raw) /\
  (Forall positioned (BitField.partitions self) ->
   exists ps,
     BitField.parse_data_int self raw
     = (Ok tt, BitField.with_partitions self ps) /\
     Forall2 (fun p p' =>
                BitFieldPartition.parse p raw = Ok p' /\
                layout p' = layout p /\
                exists m,
                  BitFieldPartition.mask p = Ok m /\
                  BitFieldPartition.value p'
                  = Z.land (Z.shiftr raw (BitFieldPartition.shift p)) m)
             (BitField.partitions self) ps).
Proof.
  split; [|split; [|split]].
  - intros p. pose proof (parse_each_not_overflow raw [p]) as H.
    simpl in H. destruct (BitFieldPartition.parse p raw); [reflexivity | exact H].
  - unfold BitField.parse_data_int.
    pose proof (parse_each_not_overflow raw (BitField.partitions self)) as H.
    now destruct (BitField.parse_each (BitField.partitions self) raw).
  - intros p Hp. exists (Z.ones (BitFieldPartition.length p)), (parsed raw p).
    destruct Hp as [Hs Hl].
    split; [now apply partition_mask_Ok|].
    split; [now apply parse_Ok|].
    split; [reflexivity|]. split; [reflexivity|].
    split; [now apply land_ones_bounds|].
    intros cfg. rewrite parse_Ok by now split.
    apply set_value_within; [assumption | now apply land_ones_bounds].
  - intros Hps. exists (map (parsed raw) (BitField.partitions self)). split.
    + unfold BitField.parse_data_int. now rewrite parse_each_Ok.
    + induction Hps as [|p ps Hp _ IH]; simpl; constructor; [|exact IH].
      split; [now apply parse_Ok|]. split; [reflexivity|].
      exists (Z.ones (BitFieldPartition.length p)).
      split; [apply partition_mask_Ok, Hp | reflexivity].
Qed.

(** Parsing [0x5A] into the sample record: [hi] then holds 5 and [lo]
    holds 2. *)
Lemma parse_never_fails_witness :
  Forall positioned (BitField.partitions Sample.record) /\
  (exists p',
     BitFieldPartition.parse Sample.hi 0x5A = Ok p' /\
     layout p' = layout Sample.hi /\
     BitFieldPartition.value p' = 5) /\
  exists ps,
    BitField.parse_data_int Sample.record 0x5A
    = (Ok tt, BitField.with_partitions Sample.record ps) /\
    map layout ps = [layout Sample.hi; layout Sample.lo] /\
    map BitFieldPartition.value ps = [5; 2].
Proof.
  assert (Forall positioned (BitField.partitions Sample.record)) as Hps.
  { simpl. repeat (constructor; [split; vm_compute; discriminate|]).
    constructor. }
  destruct (parse_never_fails Sample.record 0x5A) as (_ & _ & Hone & Hall).
  split; [exact Hps|]. split.
  - destruct (Hone Sample.hi) as (m & p' & Hm & Hparse & Hv & Hlay & _);
      [split; vm_compute; discriminate|].
    injection Hm as <-. exists p'. split; [exact Hparse|].
    split; [exact Hlay | exact Hv].
  - destruct (Hall Hps) as (ps & Hrun & HF).
    exists ps. split; [exact Hrun|].
    change (BitField.partitions Sample.record) with [Sample.hi; Sample.lo] in HF.
    destruct ps as [|p1 [|p2 [|p3 ps]]];
      try (exfalso; apply Forall2_length in HF; discriminate HF).
    apply Forall2_cons_1 in HF as [(_ & Hl1 & m1 & Hm1 & Hv1) HF].
    apply Forall2_cons_1 in HF as [(_ & Hl2 & m2 & Hm2 & Hv2) _].
    injection Hm1 as <-. injection Hm2 as <-.
    simpl. rewrite Hl1, Hl2, Hv1, Hv2. split; reflexivity.
Defined.

(** ** Bytes *)

Lemma from_little_endian_bytes (x : Z) (n : nat) :
  forall k : nat,
    from_little_endian
      (map (fun i => Z.land (Z.shiftr x (i * 8)) 0xFF) (map Z.of_nat (seq k n)))
    = Z.shiftr x (Z.of_nat k * 8) mod 2 ^ (8 * Z.of_nat n).
Proof.
  induction n as [|n IH]; intros k.
  - simpl. now rewrite Z.mod_1_r.
  - cbn [seq map from_little_endian]. rewrite IH.
    change 0xFF with (Z.ones 8). rewrite Z.land_ones by lia.
    replace (Z.of_nat (S k) * 8) with (Z.of_nat k * 8 + 8) by lia.
    rewrite <- Z.shiftr_shiftr by lia.
    rewrite (Z.shiftr_div_pow2 _ 8) by lia.
    replace (8 * Z.of_nat (S n)) with (8 + 8 * Z.of_nat n) by lia.
    rewrite Z.pow_add_r by lia.
    rewrite Z.rem_mul_r; [reflexivity | lia |].
    apply Z.pow_pos_nonneg; lia.
Qed.

Lemma data_ints_bytes (cfg : Config) (self : BitField.t) (d : Z) :
  BitField.data_int cfg self = Ok d ->
  exists bs,
    BitField.data_ints cfg self = Ok bs /\ Forall (fun b => 0 <= b <= 255) bs.
Proof.
  intros Hd. unfold BitField.data_ints. rewrite Hd. simpl.
  eexists. split; [reflexivity|].
  apply Forall_map. apply Forall_forall. intros i _.
  pose proof (land_ones_bounds (Z.shiftr d (i * 8)) 8) as B.
  change (Z.ones 8) with 255 in B. lia.
Qed.

(** C6. When [data_int] returns [d], [data_ints] returns a list of exactly
    [nbytes] entries; entry [i] is [(d >> (i*8)) & 0xFF]; every entry lies
    in [[0, 255]]; and the entries, read least significant byte first, make
    up [d] again. *)
Theorem data_ints_little_endian (cfg : Config) (self : BitField.t) (d : Z) :
  BitField.data_int cfg self = Ok d ->
  exists bs,
    BitField.data_ints cfg self = Ok bs /\
    Z.of_nat (List.length bs) = BitField.nbytes self /\
    (forall i : nat,
       Z.of_nat i < BitField.nbytes self ->
       nth_error bs i = Some (Z.land (Z.shiftr d (Z.of_nat i * 8)) 0xFF)) /\
    Forall (fun b => 0 <= b <= 255) bs /\
    from_little_endian bs = d.
Proof.
  intros Hd. unfold BitField.data_ints. rewrite Hd. simpl.
  eexists. split; [reflexivity|].
  apply data_int_inv in Hd as (D & _ & Hn & -> & _).
  unfold BitField.nbits in *.
  assert (0 <= BitField.nbytes self) as Hb by lia.
  unfold py_range. repeat split.
  - rewrite !length_map, length_seq. lia.
  - intros i Hi. rewrite nth_error_map, nth_error_map.
    rewrite nth_error_seq.
    destruct (Nat.ltb_spec i (Z.to_nat (BitField.nbytes self))); [|lia].
    reflexivity.
  - apply Forall_map, Forall_map. apply Forall_forall. intros i _.
    change 0xFF with (Z.ones 8). pose proof (land_ones_bounds (Z.shiftr
      (Z.land D (Z.ones (BitField.nbytes self * 8))) (Z.of_nat i * 8)) 8).
    change (Z.ones 8) with 255 in *. lia.
  - rewrite from_little_endian_bytes. simpl (Z.of_nat 0 * 8).
    rewrite Z.shiftr_0_r, Z2Nat.id by assumption.
    rewrite <- Z.land_ones by lia.
    replace (8 * BitField.nbytes self) with (BitField.nbytes self * 8) by lia.
    apply land_ones_twice.
Qed.

(** The one byte of the sample record. *)
Lemma data_ints_little_endian_witness :
  BitField.data_int strict Sample.record = Ok 0x95 /\
  exists bs,
    BitField.data_ints strict Sample.record = Ok bs /\
    Z.of_nat (List.length bs) = 1 /\
    (forall i : nat,
       Z.of_nat i < 1 ->
       nth_error bs i = Some (Z.land (Z.shiftr 0x95 (Z.of_nat i * 8)) 0xFF)) /\
    Forall (fun b => 0 <= b <= 255) bs /\
    from_little_endian bs = 0x95.
Proof.
  assert (BitField.data_int strict Sample.record = Ok 0x95) as Hd
    by reflexivity.
  split; [exact Hd|].
  exact (data_ints_little_endian strict Sample.record 0x95 Hd).
Defined.

(** ** Lookup by name *)

Lemma find_partition_Some (ps : list BitFieldPartition.t) (name : string)
      (p : BitFieldPartition.t) :
  BitField.find_partition ps name = Some p ->
  exists before after,
    ps = before ++ p :: after /\
    BitFieldPartition.name p = name /\
    Forall (fun q => BitFieldPartition.name q <> name) before.
Proof.
  induction ps as [|q ps IH]; simpl; [discriminate|].
  destruct (String.eqb_spec (BitFieldPartition.name q) name) as [E|E].
  - intros [= ->]. exists [], ps. repeat split; [assumption | constructor].
  - intros H. destruct (IH H) as (before & after & -> & Hn & Hb).
    exists (q :: before), after. repeat split; [assumption|].
    now constructor.
Qed.

Lemma find_partition_None (ps : list BitFieldPartition.t) (name : string) :
  BitField.find_partition ps name = None <->
  Forall (fun q => BitFieldPartition.name q <> name) ps.
Proof.
  induction ps as [|q ps IH]; simpl.
  - split; [constructor | reflexivity].
  - destruct (String.eqb_spec (BitFieldPartition.name q) name) as [E|E].
    + split; [discriminate|]. intros H. inversion H; contradiction.
    + rewrite IH. split; [now constructor | intros H; now inversion H].
Qed.

Lemma find_partition_unique (ps : list BitFieldPartition.t)
      (p : BitFieldPartition.t) :
  NoDup (names ps) -> In p ps ->
  BitField.find_partition ps (BitFieldPartition.name p) = Some p.
Proof.
  induction ps as [|q ps IH]; simpl; intros Hnd Hin; [contradiction|].
  apply NoDup_cons in Hnd as [Hq Hnd].
  destruct (String.eqb_spec (BitFieldPartition.name q) (BitFieldPartition.name p))
    as [E|E].
  - destruct Hin as [->|Hin]; [reflexivity|]. exfalso. apply Hq.
    rewrite E. apply list_elem_of_In. unfold names. now apply in_map.
  - destruct Hin as [->|Hin]; [contradiction|]. now apply IH.
Qed.

(** C9. [partition(name)] returns the first partition of the record whose
    name is [name]; it raises exactly when no partition of the record has
    that name, and what it raises is the [ValueError]
    [Partition <name> not found]; the record is the same after the call. *)
Theorem partition_lookup (self : BitField.t) (name : string) :
  snd (BitField.partition self name) = self /\
  (forall p,
     fst (BitField.partition self name) = Ok p ->
     exists before after,
       BitField.partitions self = before ++ p :: after /\
       BitFieldPartition.name p = name /\
       Forall (fun q => BitFieldPartition.name q <> name) before) /\
  ((exists p, In p (BitField.partitions self) /\ BitFieldPartition.name p = name)
   <-> exists p, fst (BitField.partition self name) = Ok p) /\
  ((forall p, In p (BitField.partitions self) -> BitFieldPartition.name p <> name)
   <-> fst (BitField.partition self name)
       = Raise (ValueError ("Partition " +:+ name +:+ " not found"))) /\
  (forall e,
     fst (BitField.partition self name) = Raise e ->
     e = ValueError ("Partition " +:+ name +:+ " not found")).
Proof.
  unfold BitField.partition.
  destruct (BitField.find_partition (BitField.partitions self) name)
    as [p|] eqn:E; simpl.
  - destruct (find_partition_Some _ _ _ E) as (before & after & Hps & Hn & Hb).
    split; [reflexivity|]. split; [|split; [|split]].
    + intros p' [= <-]. eauto.
    + split; [eauto|]. intros _. exists p. split; [|assumption].
      rewrite Hps. apply in_or_app. right. now left.
    + split; [|discriminate]. intros H. exfalso. apply (H p); [|assumption].
      rewrite Hps. apply in_or_app. right. now left.
    + discriminate.
  - apply find_partition_None in E. rewrite Forall_forall in E.
    split; [reflexivity|]. split; [|split; [|split]].
    + discriminate.
    + split; [|intros [p H]; discriminate H].
      intros (p & Hin & Hn). exfalso. apply (E p); [|assumption].
      now apply list_elem_of_In.
    + split; [reflexivity|]. intros _ p Hin. apply E. now apply list_elem_of_In.
    + now intros e [= <-].
Qed.

(** A lookup that finds its partition and one that does not, on the sample record. *)
Lemma partition_lookup_witness :
  fst (BitField.partition Sample.record "lo") = Ok Sample.lo /\
  fst (BitField.partition Sample.record "mid")
  = Raise (ValueError "Partition mid not found").
Proof.
  destruct (partition_lookup Sample.record "lo") as (_ & _ & [Hfound _] & _).
  destruct (partition_lookup Sample.record "mid") as (_ & _ & _ & [Hmissing _] & _).
  split.
  - destruct Hfound as [p Hp].
    + exists Sample.lo. split; [right; left; reflexivity | reflexivity].
    + rewrite Hp. vm_compute in Hp. injection Hp as <-. reflexivity.
  - apply Hmissing. intros p [<-|[<-|[]]]; discriminate.
Defined.

(** ** The partition map *)

Lemma comprehend_Ok (prefix : bool) (data : Z) (ps : list BitFieldPartition.t) :
  Forall positioned ps ->
  forall acc,
    BitField.comprehend prefix data ps acc
    = Ok (fold_left (fun m p => <[BitField.partition_key prefix p := slice data p]> m)
                    ps acc).
Proof.
  induction 1 as [|p ps [Hs Hl] _ IH]; simpl; intros acc; [reflexivity|].
  rewrite py_rshift_Ok by assumption. simpl.
  rewrite partition_mask_Ok by assumption. simpl. apply IH.
Qed.

Lemma fold_insert_other (key : BitFieldPartition.t -> string)
      (val : BitFieldPartition.t -> Z) (ps : list BitFieldPartition.t) (k : string) :
  ~ In k (map key ps) ->
  forall acc : gmap string Z,
    fold_left (fun m p => <[key p := val p]> m) ps acc !! k = acc !! k.
Proof.
  induction ps as [|q ps IH]; simpl; intros Hk acc; [reflexivity|].
  rewrite IH by tauto. apply lookup_insert_ne. tauto.
Qed.

Lemma fold_insert_lookup (key : BitFieldPartition.t -> string)
      (val : BitFieldPartition.t -> Z) (ps : list BitFieldPartition.t)
      (p : BitFieldPartition.t) :
  NoDup (map key ps) -> In p ps ->
  forall acc : gmap string Z,
    fold_left (fun m p => <[key p := val p]> m) ps acc !! key p = Some (val p).
Proof.
  induction ps as [|q ps IH]; simpl; intros Hnd Hin acc; [contradiction|].
  apply NoDup_cons in Hnd as [Hq Hnd].
  destruct Hin as [->|Hin].
  - rewrite fold_insert_other; [apply lookup_insert_eq|].
    intros Hk. apply Hq. now apply list_elem_of_In.
  - now apply IH.
Qed.

Lemma contributes_alone (ps : list BitFieldPartition.t)
      (p : BitFieldPartition.t) (j : Z) :
  non_overlapping ps -> In p ps -> covers p j = true ->
  existsb (fun q => contributes q j) ps = contributes p j.
Proof.
  intros Hno Hin Hc.
  destruct (contributes p j) eqn:Ep.
  - apply existsb_exists. eauto.
  - apply not_true_is_false. intros E.
    apply existsb_exists in E as (q & Hq & Hcq).
    destruct (decide (p = q)) as [<-|Hne]; [congruence|].
    specialize (Hno p q Hin Hq Hne).
    unfold contributes in Hcq. apply andb_prop in Hcq as [Hcq _].
    unfold covers in Hc, Hcq. unfold ranges_disjoint in Hno. lia.
Qed.

(** The slice of the packed integer at a partition that overlaps no other
    one is the masked value of that partition, as long as the bits of the
    partition survive the truncation to [n] bits. *)
Lemma slice_of_packed (ps : list BitFieldPartition.t)
      (p : BitFieldPartition.t) (D n : Z) :
  BitField.accumulate ps 0 = Ok D ->
  non_overlapping ps -> In p ps -> 0 <= n ->
  (forall j, covers p j = true -> n <= j -> Z.testbit D j = false) ->
  slice (Z.land D (Z.ones n)) p
  = Z.land (BitFieldPartition.value p) (Z.ones (BitFieldPartition.length p)).
Proof.
  intros HD Hno Hin Hn Hhigh.
  apply accumulate_inv in HD as (Hps & _ & Hbits).
  assert (positioned p) as Hp by (rewrite Forall_forall in Hps; apply Hps;
                                  now apply list_elem_of_In).
  apply Z.bits_inj'. intros k Hk.
  rewrite testbit_slice by assumption.
  destruct Hp as [Hs Hl].
  rewrite (Z.land_spec (BitFieldPartition.value p)),
    (Z.testbit_ones_nonneg (BitFieldPartition.length p)) by assumption.
  destruct (Z.ltb_spec k (BitFieldPartition.length p)); [|now rewrite !andb_false_r].
  rewrite !andb_true_r.
  assert (covers p (k + BitFieldPartition.shift p) = true) as Hc
    by (unfold covers; lia).
  rewrite Z.land_spec, Z.testbit_ones_nonneg by lia.
  assert (Z.testbit D (k + BitFieldPartition.shift p)
          = Z.testbit (BitFieldPartition.value p) k) as E.
  { rewrite Hbits, Z.bits_0 by lia. simpl.
    rewrite (contributes_alone _ p) by assumption.
    unfold contributes. rewrite Hc. simpl. f_equal. lia. }
  destruct (Z.ltb_spec (k + BitFieldPartition.shift p) n).
  - now rewrite andb_true_r.
  - rewrite andb_false_r. rewrite <- E. symmetry. now apply Hhigh.
Qed.

(** C8, a counterexample to the comparison with [masked_value].  A
    one-byte record with the single partition [wide], four bits at bit 6
    holding [0xF]: the name is unique, nothing overlaps, and the value is
    within the mask.  With the strictness flag cleared [data_int] truncates
    to [0xC0], [partition_map()] sends [wide] to 3, and
    [partition("wide").masked_value] is 15. *)
Lemma partition_map_truncated_when_lenient :
  NoDup (names (BitField.partitions Sample2.overflowing)) /\
  non_overlapping (BitField.partitions Sample2.overflowing) /\
  Forall within_mask (BitField.partitions Sample2.overflowing) /\
  BitField.data_int lenient Sample2.overflowing = Ok 0xC0 /\
  exists (pm : gmap string Z) p,
    BitField.partition_map lenient Sample2.overflowing false
    = (Ok pm, Sample2.overflowing) /\
    fst (BitField.partition Sample2.overflowing "wide") = Ok p /\
    BitFieldPartition.masked_value p = Ok 15 /\
    pm !! "wide"%string = Some 3 /\
    pm !! "wide"%string <> Some 15.
Proof.
  split; [|split; [|split; [|split]]].
  - simpl. repeat constructor. intros H. now apply elem_of_nil in H.
  - intros p q [<-|[]] [<-|[]] Hne. congruence.
  - simpl. constructor; [|constructor].
    exists 15. split; [reflexivity | vm_compute; split; discriminate].
  - reflexivity.
  - eexists. exists Sample2.wide. split; [reflexivity|].
    split; [reflexivity|]. split; [reflexivity|].
    assert (forall pm : gmap string Z,
              pm !! "wide"%string = Some 3 -> pm !! "wide"%string <> Some 15)
      as Hne by (intros pm E; rewrite E; discriminate).
    split; [|apply Hne]; vm_compute; reflexivity.
Qed.

(** C8, amended.  When [data_int] returns [d] and the partitions of the
    record have pairwise different names, [partition_map()] returns a map
    whose keys are the names of the partitions and which sends the name of
    each partition to [(d >> shift) & mask]; the record is the same after
    the call.  When, moreover, no two partitions overlap, and the
    strictness flag is set or every partition lies within the [nbits] of
    the record, the value at each name is the [masked_value] of the
    partition that [partition(name)] returns. *)
Theorem partition_map_consistent (cfg : Config) (self : BitField.t) (d : Z) :
  BitField.data_int cfg self = Ok d ->
  NoDup (names (BitField.partitions self)) ->
  exists pm : gmap string Z,
    BitField.partition_map cfg self false = (Ok pm, self) /\
    (forall k, In k (names (BitField.partitions self)) <-> pm !! k <> None) /\
    (forall p,
       In p (BitField.partitions self) ->
       exists m,
         BitFieldPartition.mask p = Ok m /\
         pm !! BitFieldPartition.name p
         = Some (Z.land (Z.shiftr d (BitFieldPartition.shift p)) m)) /\
    (non_overlapping (BitField.partitions self) ->
     error_check_overflow cfg = true \/
       Forall (fits self) (BitField.partitions self) ->
     forall p,
       In p (BitField.partitions self) ->
       exists v,
         fst (BitField.partition self (BitFieldPartition.name p)) = Ok p /\
         BitFieldPartition.masked_value p = Ok v /\
         pm !! BitFieldPartition.name p = Some v).
Proof.
  intros Hd Hnd.
  destruct (data_int_inv _ _ _ Hd) as (D & HD & Hn & -> & Hstrict).
  destruct (accumulate_inv _ _ _ HD) as (Hps & Hpos & _).
  set (d := Z.land D (Z.ones (BitField.nbits self))) in *.
  exists (fold_left (fun m p => <[BitFieldPartition.name p := slice d p]> m)
                    (BitField.partitions self) ∅).
  assert (forall p, In p (BitField.partitions self) -> positioned p) as Hpp.
  { intros p Hin. rewrite Forall_forall in Hps. apply Hps.
    now apply list_elem_of_In. }
  split; [|split; [|split]].
  - unfold BitField.partition_map. rewrite Hd. simpl.
    now rewrite (comprehend_Ok false d _ Hps).
  - intros k. split.
    + intros Hk. unfold names in Hk. apply in_map_iff in Hk as (p & <- & Hin).
      now rewrite (fold_insert_lookup BitFieldPartition.name (slice d)).
    + intros Hk.
      destruct (in_dec string_dec k (names (BitField.partitions self)))
        as [Hin|Hout]; [assumption|].
      exfalso. apply Hk.
      now rewrite (fold_insert_other BitFieldPartition.name (slice d)).
  - intros p Hin. exists (Z.ones (BitFieldPartition.length p)).
    split; [apply partition_mask_Ok, (Hpp p Hin)|].
    now rewrite (fold_insert_lookup BitFieldPartition.name (slice d)).
  - intros Hno Hfit p Hin.
    exists (Z.land (BitFieldPartition.value p) (Z.ones (BitFieldPartition.length p))).
    split; [|split].
    + unfold BitField.partition. now rewrite find_partition_unique.
    + apply masked_value_Ok, (Hpp p Hin).
    + rewrite (fold_insert_lookup BitFieldPartition.name (slice d)) by assumption.
      f_equal. unfold d. apply (slice_of_packed (BitField.partitions self));
        try assumption.
      intros j Hc Hj. destruct Hfit as [Hflag|Hfits].
      * apply (no_high_bits D (BitField.nbits self)); auto. now apply Hpos.
      * rewrite Forall_forall in Hfits.
        assert (fits self p) as Hf by (apply Hfits; now apply list_elem_of_In).
        unfold fits in Hf. unfold covers in Hc. lia.
Qed.

(** The map of the sample record: each name is sent to the value its partition holds. *)
Lemma partition_map_consistent_witness :
  BitField.data_int strict Sample.record = Ok 0x95 /\
  NoDup (names (BitField.partitions Sample.record)) /\
  non_overlapping (BitField.partitions Sample.record) /\
  exists pm : gmap string Z,
    BitField.partition_map strict Sample.record false = (Ok pm, Sample.record) /\
    pm !! "hi"%string = Some 9 /\ pm !! "lo"%string = Some 5.
Proof.
  assert (BitField.data_int strict Sample.record = Ok 0x95) as Hd
    by reflexivity.
  assert (NoDup (names (BitField.partitions Sample.record))) as Hnd.
  { simpl. repeat constructor; intros H;
      repeat (apply elem_of_cons in H as [H|H]; [discriminate H|]);
      now apply elem_of_nil in H. }
  assert (non_overlapping (BitField.partitions Sample.record)) as Hno.
  { intros p q [<-|[<-|[]]] [<-|[<-|[]]] Hne; try congruence;
      unfold ranges_disjoint; vm_compute; [right | left]; discriminate. }
  split; [exact Hd|]. split; [exact Hnd|]. split; [exact Hno|].
  destruct (partition_map_consistent strict Sample.record 0x95 Hd Hnd)
    as (pm & Hpm & _ & _ & Hread).
  exists pm. split; [exact Hpm|].
  split.
  - destruct (Hread Hno (or_introl eq_refl) Sample.hi (or_introl eq_refl))
      as (v & _ & Hv & Hk).
    injection Hv as <-. exact Hk.
  - destruct (Hread Hno (or_introl eq_refl) Sample.lo (or_intror (or_introl eq_refl)))
      as (v & _ & Hv & Hk).
    injection Hv as <-. exact Hk.
Defined.

(** ** Records of the data model always pack and always construct *)

(** A record whose partitions have non-negative shifts and lengths and lie
    within its [nbits] packs without raising, with the strictness flag set
    or cleared. *)
Lemma data_int_returns (cfg : Config) (self : BitField.t) :
  0 <= BitField.nbytes self ->
  Forall positioned (BitField.partitions self) ->
  Forall (fits self) (BitField.partitions self) ->
  exists d, BitField.data_int cfg self = Ok d /\ 0 <= d < 2 ^ BitField.nbits self.
Proof.
  intros Hb Hps Hfits.
  assert (0 <= BitField.nbits self) as Hn by (unfold BitField.nbits; lia).
  destruct (accumulate_Ok _ Hps 0) as [D HD].
  destruct (accumulate_inv _ _ _ HD) as (_ & _ & Hbits).
  exists (Z.land D (Z.ones (BitField.nbits self))). split.
  - apply data_int_Ok; try assumption. intros _.
    rewrite (high_bits_shiftr D (BitField.nbits self)); [reflexivity | assumption |].
    intros j Hj. rewrite Hbits, Z.bits_0 by lia. simpl.
    apply not_true_is_false. intros E.
    apply contributes_covered, existsb_exists in E as (p & Hin & Hc).
    rewrite Forall_forall in Hfits.
    assert (fits self p) as Hf by (apply Hfits; now apply list_elem_of_In).
    unfold fits in Hf. unfold covers in Hc. lia.
  - pose proof (land_ones_bounds D (BitField.nbits self) Hn) as B.
    rewrite Z.ones_equiv in B |- *. lia.
Qed.

Lemma py_bytes_Ok (ints : list Z) :
  Forall (fun b => 0 <= b <= 255) ints ->
  exists bs, BitField.py_bytes ints = Ok bs.
Proof.
  induction 1 as [|i ints Hi _ [bs IH]]; simpl; [eauto|].
  destruct (Z.ltb_spec i 0); [lia|].
  destruct (Byte.of_N (Z.to_N i)) as [b|] eqn:E.
  - rewrite IH. simpl. eauto.
  - apply Byte.of_N_None_iff, N2Z.inj_lt in E.
    rewrite Z2N.id in E by lia. simpl in E. lia.
Qed.

Lemma getattr_property_returns (cfg : Config) (self : BitField.t) (p : property) :
  0 <= BitField.nbytes self ->
  Forall positioned (BitField.partitions self) ->
  Forall (fits self) (BitField.partitions self) ->
  BitField.getattr_property cfg self p = Ok tt.
Proof.
  intros Hb Hps Hfits.
  destruct (data_int_returns cfg self Hb Hps Hfits) as (d & Hd & _).
  destruct (data_ints_bytes cfg self d Hd) as (bs & Hbs & Hrange).
  destruct p; simpl.
  - unfold BitField.data_bytes. rewrite Hbs. simpl.
    destruct (py_bytes_Ok bs Hrange) as [b ->]. reflexivity.
  - now rewrite Hd.
  - now rewrite Hbs.
  - rewrite record_mask_Ok; [reflexivity|]. unfold BitField.nbits. lia.
  - reflexivity.
Qed.

Lemma laid_out_fits (self : BitField.t) (ps : list BitFieldPartition.t) :
  Forall (laid_out (BitField.nbytes self)) ps ->
  Forall positioned ps /\ Forall (fits self) ps.
Proof.
  intros H. split; eapply Forall_impl; try exact H; intros p [Hp Hf];
    [exact Hp | exact Hf].
Qed.

Lemma discover_returns (cfg : Config) (entries : list (string * attribute)) :
  forall self,
    0 <= BitField.nbytes self ->
    Forall (laid_out (BitField.nbytes self)) (BitField.partitions self) ->
    Forall (fun e => forall t, snd e = attr_partition t ->
                               laid_out (BitField.nbytes self) t) entries ->
    exists self', BitField.discover cfg entries self = Ok self'.
Proof.
  induction entries as [|[n a] rest IH]; intros self Hb Hps Hes; simpl; [eauto|].
  inversion Hes as [|e es He Hrest]; subst.
  destruct a as [tpl|p|].
  - apply IH; simpl; try assumption.
    apply Forall_app. split; [assumption|].
    constructor; [|constructor]. exact (He tpl eq_refl).
  - destruct (laid_out_fits self _ Hps) as [Hpos Hfits].
    rewrite getattr_property_returns by assumption. simpl. now apply IH.
  - now apply IH.
Qed.

Lemma BitField_subclass_not_type (C : pyclass) :
  BitField_subclass C = true -> pyclass_eqb C class_type = false.
Proof. destruct C; simpl; intros H; reflexivity || discriminate H. Qed.

(** Every well-declared record type constructs, with the strictness flag
    set or cleared, when its width is not negative and its templates are
    positioned within that width. *)
Lemma concrete_class_constructs
      (cfg : Config) (C : pyclass) (name : string) (nbytes : Z) :
  well_declared C ->
  0 <= nbytes ->
  Forall (fun d => laid_out nbytes (snd d)) (declared_partitions C) ->
  exists self,
    BitField.__init__ cfg C name nbytes = Ok self /\
    BitField.name self = name /\ BitField.nbytes self = nbytes.
Proof.
  intros (HC & _ & _) Hb Hdecl. apply BitField_subclass_not_type in HC.
  unfold BitField.__init__, __class__. rewrite HC.
  destruct (discover_returns cfg (dir C) (BitField.mk name nbytes []))
    as [self Hself]; simpl; try assumption; [constructor| |].
  - unfold dir. eapply Permutation_Forall.
    + symmetry. apply merge_sort_Permutation.
    + apply Forall_app. split.
      * apply Forall_map. eapply Forall_impl; [exact Hdecl|].
        intros d Hd t [= <-]. exact Hd.
      * unfold BitField_attributes.
        repeat (constructor; [intros t E; discriminate E|]). constructor.
  - exists self. split; [assumption|].
    apply discover_partitions in Hself as (_ & Hn & Hnb). now split.
Qed.


(** * Further properties of the code *)

(** ** What [data_int] computes *)

Lemma parse_raise (p : BitFieldPartition.t) (data : Z) :
  ~ positioned p ->
  BitFieldPartition.parse p data = Raise (ValueError "negative shift count").
Proof.
  intros Hn. unfold BitFieldPartition.parse, py_rshift.
  destruct (Z.ltb_spec (BitFieldPartition.shift p) 0); [reflexivity|]. simpl.
  unfold BitFieldPartition.mask, py_lshift.
  destruct (Z.ltb_spec (BitFieldPartition.length p) 0); [reflexivity|].
  exfalso. apply Hn. now split.
Qed.

Lemma accumulate_raise (ps : list BitFieldPartition.t) :
  ~ Forall positioned ps ->
  forall data,
    BitField.accumulate ps data = Raise (ValueError "negative shift count").
Proof.
  induction ps as [|p ps IH]; intros Hn data; [exfalso; apply Hn; constructor|].
  simpl. unfold BitFieldPartition.masked_value, BitFieldPartition.mask.
  unfold py_lshift at 1.
  destruct (Z.ltb_spec (BitFieldPartition.length p) 0); [reflexivity|]. simpl.
  unfold py_lshift.
  destruct (Z.ltb_spec (BitFieldPartition.shift p) 0); [reflexivity|]. simpl.
  apply IH. intros Hps. apply Hn. constructor; [now split | assumption].
Qed.

Lemma packed_bit_Permutation (ps ps' : list BitFieldPartition.t) (j : Z) :
  Permutation ps ps' -> packed_bit ps j = packed_bit ps' j.
Proof.
  unfold packed_bit.
  induction 1 as [|p l l' _ IH|p q l|l1 l2 l3 _ IH1 _ IH2]; simpl.
  - reflexivity.
  - now rewrite IH.
  - now destruct (contributes p j), (contributes q j).
  - now rewrite IH1.
Qed.

(** X1. Whenever [data_int] returns, the result lies in [[0, 2^nbits)], and
    its bit [j] is set exactly when [j] is below [nbits] and some partition
    whose range covers [j] holds a value with the corresponding bit set:
    overlapping partitions are or-ed together, gaps read as zero. *)
Theorem data_int_bits (cfg : Config) (self : BitField.t) (d : Z) :
  BitField.data_int cfg self = Ok d ->
  0 <= d < 2 ^ BitField.nbits self /\
  forall j, 0 <= j ->
    Z.testbit d j
    = (j <? BitField.nbits self) && packed_bit (BitField.partitions self) j.
Proof.
  intros Hd. apply data_int_inv in Hd as (D & HD & Hn & -> & _).
  apply accumulate_inv in HD as (_ & _ & Hbits). split.
  - pose proof (land_ones_bounds D (BitField.nbits self) Hn) as B.
    rewrite Z.ones_equiv in B |- *. lia.
  - intros j Hj. rewrite Z.land_spec, Z.testbit_ones_nonneg by assumption.
    rewrite Hbits, Z.bits_0 by assumption. simpl. apply andb_comm.
Qed.

(** The packed integer of the sample record. *)
Lemma data_int_bits_witness :
  BitField.data_int strict Sample.record = Ok 0x95 /\
  0 <= 0x95 < 2 ^ BitField.nbits Sample.record /\
  forall j, 0 <= j ->
    Z.testbit 0x95 j
    = (j <? BitField.nbits Sample.record)
      && packed_bit (BitField.partitions Sample.record) j.
Proof.
  assert (BitField.data_int strict Sample.record = Ok 0x95) as Hd
    by reflexivity.
  split; [exact Hd|].
  exact (data_int_bits strict Sample.record 0x95 Hd).
Defined.

(** X2. The strictness flag decides only whether [data_int] raises: a
    result returned under any setting is the result returned with the flag
    cleared. *)
Theorem data_int_strict_is_lenient (cfg : Config) (self : BitField.t) (d : Z) :
  BitField.data_int cfg self = Ok d ->
  BitField.data_int lenient self = Ok d.
Proof.
  intros Hd. apply data_int_inv in Hd as (D & HD & Hn & -> & _).
  apply data_int_Ok; [assumption..|]. discriminate.
Qed.

(** The sample record packs to the same integer under both settings. *)
Lemma data_int_strict_is_lenient_witness :
  BitField.data_int strict Sample.record = Ok 0x95 /\
  BitField.data_int lenient Sample.record = Ok 0x95.
Proof.
  assert (BitField.data_int strict Sample.record = Ok 0x95) as Hd
    by reflexivity.
  split; [exact Hd|].
  exact (data_int_strict_is_lenient strict Sample.record 0x95 Hd).
Defined.

(** X3. With the flag set, [data_int] raises [OverflowError] exactly when
    some partition contributes a bit at or above [nbits]; the message names
    the record and [nbits].  Otherwise it returns what it returns with the
    flag cleared. *)
Theorem data_int_overflow (cfg : Config) (self : BitField.t) (d : Z) :
  error_check_overflow cfg = true ->
  BitField.data_int lenient self = Ok d ->
  ((forall j, BitField.nbits self <= j ->
      packed_bit (BitField.partitions self) j = false) ->
   BitField.data_int cfg self = Ok d) /\
  ((exists j, BitField.nbits self <= j /\
      packed_bit (BitField.partitions self) j = true) ->
   BitField.data_int cfg self
   = Raise (OverflowError
              (BitField.name self +:+ ": More than "
                 +:+ py_str (BitField.nbits self) +:+ " bits of data"))).
Proof.
  intros Hflag Hd. apply data_int_inv in Hd as (D & HD & Hn & -> & _).
  destruct (accumulate_inv _ _ _ HD) as (_ & Hpos & Hbits). split.
  - intros Hhigh. apply data_int_Ok; [assumption..|]. intros _.
    rewrite (high_bits_shiftr D (BitField.nbits self)); [reflexivity | assumption |].
    intros j Hj. rewrite Hbits, Z.bits_0 by lia. simpl. now apply Hhigh.
  - intros (j & Hj & Hbit). unfold BitField.data_int. rewrite HD. simpl.
    unfold checked. rewrite Hflag. rewrite py_rshift_Ok by assumption. simpl.
    assert (0 < Z.shiftr D (BitField.nbits self)) as Hgt.
    { assert (0 <= Z.shiftr D (BitField.nbits self)) as Hge
        by (apply Z.shiftr_nonneg, Hpos; lia).
      assert (Z.shiftr D (BitField.nbits self) <> 0) as Hne; [|lia].
      intros E.
      assert (Z.testbit (Z.shiftr D (BitField.nbits self))
                        (j - BitField.nbits self) = true) as T.
      { rewrite Z.shiftr_spec by lia.
        replace (j - BitField.nbits self + BitField.nbits self) with j by lia.
        rewrite Hbits, Z.bits_0 by lia. exact Hbit. }
      rewrite E, Z.bits_0 in T. discriminate T. }
    apply Z.ltb_lt in Hgt. rewrite Hgt. reflexivity.
Qed.

(** A partition of four bits at bit 6 of a one-byte record: bits 8 and 9
    overflow. *)
Lemma data_int_overflow_witness :
  BitField.data_int lenient Sample2.overflowing = Ok 0xC0 /\
  BitField.data_int strict Sample2.overflowing
  = Raise (OverflowError "Wide: More than 8 bits of data") /\
  BitField.data_int strict Sample.record = Ok 0x95.
Proof.
  assert (BitField.data_int lenient Sample2.overflowing = Ok 0xC0) as Hd
    by reflexivity.
  assert (BitField.data_int lenient Sample.record = Ok 0x95) as Hs
    by reflexivity.
  split; [exact Hd|]. split.
  - apply (proj2 (data_int_overflow strict Sample2.overflowing 0xC0 eq_refl Hd)).
    exists 8. split; [vm_compute; discriminate | reflexivity].
  - apply (proj1 (data_int_overflow strict Sample.record 0x95 eq_refl Hs)).
    intros j Hj. change (BitField.nbits Sample.record) with 8 in Hj.
    unfold packed_bit, contributes, covers. simpl.
    change (BitFieldPartition.shift Sample.hi) with 4.
    change (BitFieldPartition.shift Sample.lo) with 0.
    repeat match goal with
           | |- context [?x <? ?y] => destruct (Z.ltb_spec x y); try lia
           end.
Defined.

(** X4. The order of [partitions] does not matter to [data_int]: two
    records with the same name and width whose partition lists are
    permutations of each other return the same integer or raise the same
    exception. *)
Theorem data_int_order_independent (cfg : Config) (a b : BitField.t) :
  BitField.name a = BitField.name b ->
  BitField.nbytes a = BitField.nbytes b ->
  Permutation (BitField.partitions a) (BitField.partitions b) ->
  BitField.data_int cfg a = BitField.data_int cfg b.
Proof.
  destruct a as [na ba pa], b as [nb bb pb]. simpl. intros -> -> Hperm.
  unfold BitField.data_int, BitField.overflow_message, BitField.mask,
    BitField.nbits. simpl.
  destruct (decide (Forall positioned pa)) as [Hpa|Hpa].
  - assert (Forall positioned pb) as Hpb by (now rewrite <- Hperm).
    destruct (accumulate_Ok _ Hpa 0) as [Da HDa].
    destruct (accumulate_Ok _ Hpb 0) as [Db HDb].
    rewrite HDa, HDb.
    destruct (accumulate_inv _ _ _ HDa) as (_ & _ & Hba).
    destruct (accumulate_inv _ _ _ HDb) as (_ & _ & Hbb).
    assert (Da = Db) as ->; [|reflexivity].
    apply Z.bits_inj'. intros j Hj. rewrite Hba, Hbb by assumption.
    f_equal. now apply packed_bit_Permutation.
  - assert (~ Forall positioned pb) as Hpb by (now rewrite <- Hperm).
    now rewrite !accumulate_raise.
Qed.

(** The sample record with its two partitions swapped. *)
Lemma data_int_order_independent_witness :
  Permutation (BitField.partitions Sample.record)
              (BitField.partitions Sample2.swapped) /\
  BitField.data_int strict Sample.record
  = BitField.data_int strict Sample2.swapped.
Proof.
  assert (Permutation (BitField.partitions Sample.record)
                      (BitField.partitions Sample2.swapped)) as Hp
    by apply perm_swap.
  split; [exact Hp|].
  exact (data_int_order_independent strict Sample.record Sample2.swapped
           eq_refl eq_refl Hp).
Defined.

(** X5. [data_int] raises [ValueError] exactly when [nbytes] is negative or
    some partition has a negative shift or length, whatever the strictness
    flag; it then raises for every value the partitions hold. *)
Theorem data_int_value_error (cfg : Config) (self : BitField.t) :
  BitField.data_int cfg self = Raise (ValueError "negative shift count")
  <-> (BitField.nbytes self < 0 \/ ~ Forall positioned (BitField.partitions self)).
Proof.
  split.
  - intros H.
    destruct (decide (Forall positioned (BitField.partitions self))) as [Hps|Hps];
      [|now right].
    left. destruct (Z.lt_ge_cases (BitField.nbytes self) 0) as [Hb|Hb];
      [assumption|exfalso].
    assert (0 <= BitField.nbits self) as Hn by (unfold BitField.nbits; lia).
    destruct (accumulate_Ok _ Hps 0) as [D HD].
    unfold BitField.data_int in H. rewrite HD in H. simpl in H.
    unfold checked in H. rewrite py_rshift_Ok in H by assumption. simpl in H.
    rewrite record_mask_Ok in H by assumption. simpl in H.
    destruct (error_check_overflow cfg);
      [destruct (0 <? Z.shiftr D (BitField.nbits self))|]; discriminate H.
  - intros [Hb|Hps].
    + destruct (decide (Forall positioned (BitField.partitions self))) as [Hps|Hps].
      * destruct (accumulate_Ok _ Hps 0) as [D HD].
        unfold BitField.data_int. rewrite HD. simpl.
        unfold checked, BitField.mask, py_rshift, py_lshift.
        destruct (Z.ltb_spec (BitField.nbits self) 0);
          [|unfold BitField.nbits in *; lia].
        now destruct (error_check_overflow cfg).
      * unfold BitField.data_int. now rewrite accumulate_raise.
    + unfold BitField.data_int. now rewrite accumulate_raise.
Qed.

(** A record with a partition of negative length. *)
Lemma data_int_value_error_witness :
  BitField.data_int lenient (BitField.mk "r" 1 [Sample2.negative])
  = Raise (ValueError "negative shift count").
Proof.
  apply (proj2 (data_int_value_error lenient (BitField.mk "r" 1 [Sample2.negative]))).
  right. intros H. inversion H as [|p ps [_ Hl] _]; subst.
  vm_compute in Hl. now apply Hl.
Defined.


(** ** Bytes *)

Lemma py_bytes_ints (ints : list Z) :
  forall bs, BitField.py_bytes ints = Ok bs -> bytes_to_ints bs = ints.
Proof.
  induction ints as [|i ints IH]; simpl; intros bs H.
  - now injection H as <-.
  - destruct (Z.ltb_spec i 0); [discriminate|].
    destruct (Byte.of_N (Z.to_N i)) as [b|] eqn:E; [|discriminate].
    apply bind_Ok in H as (bs' & Hbs' & H). injection H as <-.
    simpl. rewrite (IH _ Hbs'). f_equal.
    apply Byte.to_of_N in E. rewrite E. now apply Z2N.id.
Qed.

Lemma data_ints_value (cfg : Config) (self : BitField.t) (d : Z) :
  BitField.data_int cfg self = Ok d ->
  exists ints,
    BitField.data_ints cfg self = Ok ints /\
    Z.of_nat (List.length ints) = BitField.nbytes self /\
    from_little_endian ints = d.
Proof.
  intros Hd. unfold BitField.data_ints. rewrite Hd. simpl.
  eexists. split; [reflexivity|].
  apply data_int_inv in Hd as (D & _ & Hn & -> & _).
  unfold BitField.nbits in *.
  assert (0 <= BitField.nbytes self) as Hb by lia.
  unfold py_range. split.
  - rewrite !length_map, length_seq. lia.
  - rewrite from_little_endian_bytes. simpl (Z.of_nat 0 * 8).
    rewrite Z.shiftr_0_r, Z2Nat.id by assumption.
    rewrite <- Z.land_ones by lia.
    replace (8 * BitField.nbytes self) with (BitField.nbytes self * 8) by lia.
    apply land_ones_twice.
Qed.

(** X6. Whenever [data_int] returns [d], [data_bytes] returns as well (the
    call of [bytes] never meets an entry outside [range(256)]): it gives
    [nbytes] bytes, which are the integers of [data_ints] and which, read
    least significant byte first, make up [d]. *)
Theorem data_bytes_little_endian (cfg : Config) (self : BitField.t) (d : Z) :
  BitField.data_int cfg self = Ok d ->
  exists bs,
    BitField.data_bytes cfg self = Ok bs /\
    BitField.data_ints cfg self = Ok (bytes_to_ints bs) /\
    Z.of_nat (List.length bs) = BitField.nbytes self /\
    from_little_endian (bytes_to_ints bs) = d.
Proof.
  intros Hd.
  destruct (data_ints_value cfg self d Hd) as (ints & Hints & Hlen & Hle).
  destruct (data_ints_bytes cfg self d Hd) as (ints' & Hints' & Hrange).
  rewrite Hints in Hints'. injection Hints' as <-.
  destruct (py_bytes_Ok ints Hrange) as [bs Hbs].
  pose proof (py_bytes_ints ints bs Hbs) as E.
  exists bs. unfold BitField.data_bytes. rewrite Hints. simpl.
  rewrite E. repeat split; try assumption.
  rewrite <- Hlen, <- E. unfold bytes_to_ints. now rewrite length_map.
Qed.

(** The one byte of the sample record. *)
Lemma data_bytes_little_endian_witness :
  BitField.data_int strict Sample.record = Ok 0x95 /\
  exists bs,
    BitField.data_bytes strict Sample.record = Ok bs /\
    BitField.data_ints strict Sample.record = Ok (bytes_to_ints bs) /\
    Z.of_nat (List.length bs) = 1 /\
    from_little_endian (bytes_to_ints bs) = 0x95.
Proof.
  assert (BitField.data_int strict Sample.record = Ok 0x95) as Hd
    by reflexivity.
  split; [exact Hd|].
  exact (data_bytes_little_endian strict Sample.record 0x95 Hd).
Defined.

(** ** Unpacking *)

Lemma parsed_parsed (d1 d2 : Z) (p : BitFieldPartition.t) :
  parsed d2 (parsed d1 p) = parsed d2 p.
Proof. reflexivity. Qed.

Lemma layout_parsed (d : Z) (p : BitFieldPartition.t) :
  layout (parsed d p) = layout p.
Proof. reflexivity. Qed.

Lemma names_parsed (d : Z) (ps : list BitFieldPartition.t) :
  names (map (parsed d) ps) = names ps.
Proof. unfold names. rewrite map_map. reflexivity. Qed.

Lemma parse_each_stops (d : Z) (before after : list BitFieldPartition.t)
      (bad : BitFieldPartition.t) :
  Forall positioned before -> ~ positioned bad ->
  BitField.parse_each (before ++ bad :: after) d
  = (Raise (ValueError "negative shift count"),
     map (parsed d) before ++ bad :: after).
Proof.
  intros Hb Hbad. induction Hb as [|p ps Hp _ IH]; simpl.
  - now rewrite parse_raise.
  - rewrite parse_Ok by assumption. now rewrite IH.
Qed.

Lemma parse_each_again (d1 d2 : Z) (ps : list BitFieldPartition.t) :
  BitField.parse_each (snd (BitField.parse_each ps d1)) d2
  = BitField.parse_each ps d2.
Proof.
  induction ps as [|p ps IH]; simpl; [reflexivity|].
  destruct (decide (positioned p)) as [Hp|Hp].
  - rewrite !parse_Ok by assumption.
    destruct (BitField.parse_each ps d1) as [r1 ps1] eqn:E1. simpl in IH |- *.
    rewrite parse_Ok by exact Hp. rewrite parsed_parsed. now rewrite IH.
  - rewrite !parse_raise by assumption. simpl. now rewrite parse_raise.
Qed.

Lemma parse_each_layout (d : Z) (ps : list BitFieldPartition.t) :
  map layout (snd (BitField.parse_each ps d)) = map layout ps.
Proof.
  induction ps as [|p ps IH]; simpl; [reflexivity|].
  destruct (BitFieldPartition.parse p d) as [p'|e] eqn:E; [|reflexivity].
  apply parse_inv in E as [_ ->].
  destruct (BitField.parse_each ps d) as [r ps']. simpl in *.
  now rewrite IH.
Qed.

Lemma covered_fits (self : BitField.t) (j : Z) :
  Forall (fits self) (BitField.partitions self) ->
  BitField.nbits self <= j -> covered (BitField.partitions self) j = false.
Proof.
  intros Hfits Hj. apply not_true_is_false. intros E.
  apply existsb_exists in E as (p & Hin & Hc).
  rewrite Forall_forall in Hfits.
  assert (fits self p) as Hf by (apply Hfits; now apply list_elem_of_In).
  unfold fits in Hf. unfold covers in Hc. lia.
Qed.

(** Packing a record that has just parsed [d]: the bits of [d] that some
    partition covers. *)
Lemma data_int_parsed (cfg : Config) (self : BitField.t) (d : Z) :
  0 <= BitField.nbytes self ->
  Forall (laid_out (BitField.nbytes self)) (BitField.partitions self) ->
  exists d',
    BitField.data_int cfg
      (BitField.with_partitions self (map (parsed d) (BitField.partitions self)))
    = Ok d' /\
    forall j, 0 <= j ->
      Z.testbit d' j = Z.testbit d j && covered (BitField.partitions self) j.
Proof.
  intros Hb Hlaid. destruct (laid_out_fits self _ Hlaid) as [Hps Hfits].
  assert (0 <= BitField.nbits self) as Hn by (unfold BitField.nbits; lia).
  destruct (accumulate_Ok _ (positioned_parsed d _ Hps) 0) as [D HD].
  destruct (accumulate_inv _ _ _ HD) as (_ & _ & Hbits).
  assert (forall j, 0 <= j ->
            Z.testbit D j = covered (BitField.partitions self) j && Z.testbit d j)
    as HbD.
  { intros j Hj. rewrite Hbits, Z.bits_0 by assumption. simpl.
    now apply existsb_contributes_parsed. }
  exists (Z.land D (Z.ones (BitField.nbits self))). split.
  - apply (data_int_Ok cfg
             (BitField.with_partitions self
                (map (parsed d) (BitField.partitions self))) D);
      [exact HD | exact Hn |]. intros _.
    change (BitField.nbits (BitField.with_partitions self
              (map (parsed d) (BitField.partitions self))))
      with (BitField.nbits self).
    rewrite (high_bits_shiftr D (BitField.nbits self)); [reflexivity | exact Hn |].
    intros j Hj. rewrite HbD by lia. now rewrite covered_fits.
  - intros j Hj. rewrite Z.land_spec, Z.testbit_ones_nonneg, HbD by assumption.
    destruct (Z.ltb_spec j (BitField.nbits self)).
    + rewrite andb_true_r. apply andb_comm.
    + rewrite covered_fits by assumption. now rewrite !andb_false_r.
Qed.

(** X7. Unpack, then pack.  On a record of non-negative width whose
    partitions are positioned within it, [parse_data_int(d)] succeeds for
    every integer [d], and [data_int] then returns the bits of [d] that
    some partition covers, with the flag set or cleared.  When the
    partitions cover every bit below [nbits] and [d] lies in
    [[0, 2^nbits)], [data_int] returns [d] itself. *)
Theorem unpack_then_pack (cfg : Config) (self : BitField.t) (d : Z) :
  0 <= BitField.nbytes self ->
  Forall (laid_out (BitField.nbytes self)) (BitField.partitions self) ->
  exists self' d',
    BitField.parse_data_int self d = (Ok tt, self') /\
    BitField.data_int cfg self' = Ok d' /\
    (forall j, 0 <= j ->
       Z.testbit d' j = Z.testbit d j && covered (BitField.partitions self) j) /\
    ((forall j, 0 <= j < BitField.nbits self ->
        covered (BitField.partitions self) j = true) ->
     0 <= d < 2 ^ BitField.nbits self ->
     d' = d).
Proof.
  intros Hb Hlaid. destruct (laid_out_fits self _ Hlaid) as [Hps Hfits].
  destruct (data_int_parsed cfg self d Hb Hlaid) as (d' & Hd' & Hbits).
  eexists. exists d'. split; [|split; [exact Hd'|split; [exact Hbits|]]].
  - unfold BitField.parse_data_int. now rewrite parse_each_Ok.
  - intros Hcov Hd. apply Z.bits_inj'. intros j Hj. rewrite Hbits by assumption.
    assert (0 <= BitField.nbits self) as Hn by (unfold BitField.nbits; lia).
    destruct (Z.lt_ge_cases j (BitField.nbits self)).
    + rewrite Hcov by lia. apply andb_true_r.
    + rewrite covered_fits by assumption. rewrite andb_false_r.
      rewrite <- (Z.mod_small d (2 ^ BitField.nbits self)) by assumption.
      rewrite <- Z.land_ones by assumption. symmetry. now apply land_ones_high.
Qed.

(** The record of two nibbles parses [0xA7] and packs it again. *)
Lemma unpack_then_pack_witness :
  0 <= BitField.nbytes Sample2.full /\
  Forall (laid_out (BitField.nbytes Sample2.full)) (BitField.partitions Sample2.full) /\
  exists self',
    BitField.parse_data_int Sample2.full 0xA7 = (Ok tt, self') /\
    BitField.data_int strict self' = Ok 0xA7.
Proof.
  assert (0 <= BitField.nbytes Sample2.full) as Hb by (vm_compute; discriminate).
  assert (Forall (laid_out (BitField.nbytes Sample2.full))
                 (BitField.partitions Sample2.full)) as Hlaid.
  { simpl. repeat (constructor; [repeat split; vm_compute; discriminate|]).
    constructor. }
  split; [exact Hb|]. split; [exact Hlaid|].
  destruct (unpack_then_pack strict Sample2.full 0xA7 Hb Hlaid)
    as (self' & d' & Hparse & Hpack & _ & Hfull).
  exists self'. split; [exact Hparse|].
  rewrite Hpack. f_equal. apply Hfull.
  - intros j Hj. change (BitField.nbits Sample2.full) with 8 in Hj.
    unfold covered, covers. simpl.
    change (BitFieldPartition.shift Sample2.low) with 0.
    change (BitFieldPartition.shift Sample2.high) with 4.
    lia.
  - change (BitField.nbits Sample2.full) with 8. vm_compute. split; [discriminate | reflexivity].
Defined.

(** X8. [parse_data_int] changes values only: whether it returns or raises,
    the record keeps its name and width and every partition keeps its name,
    start byte, start bit and length, in the same order. *)
Theorem parse_data_int_keeps_layout (self : BitField.t) (d : Z) :
  BitField.name (snd (BitField.parse_data_int self d)) = BitField.name self /\
  BitField.nbytes (snd (BitField.parse_data_int self d)) = BitField.nbytes self /\
  map layout (BitField.partitions (snd (BitField.parse_data_int self d)))
  = map layout (BitField.partitions self).
Proof.
  unfold BitField.parse_data_int.
  pose proof (parse_each_layout d (BitField.partitions self)) as H.
  destruct (BitField.parse_each (BitField.partitions self) d) as [r ps].
  simpl in *. auto.
Qed.

(** X9. A parse forgets the values held before it: parsing [d1] and then
    [d2] gives the same outcome and leaves the same record as parsing [d2]
    alone, also when the parse raises. *)
Theorem parse_data_int_overwrites (self : BitField.t) (d1 d2 : Z) :
  BitField.parse_data_int (snd (BitField.parse_data_int self d1)) d2
  = BitField.parse_data_int self d2.
Proof.
  unfold BitField.parse_data_int.
  pose proof (parse_each_again d1 d2 (BitField.partitions self)) as H.
  destruct (BitField.parse_each (BitField.partitions self) d1) as [r1 ps1].
  simpl in *. rewrite H.
  now destruct (BitField.parse_each (BitField.partitions self) d2).
Qed.

(** X10. [parse_data_int] returns exactly when every partition has a
    non-negative shift and length.  Otherwise it raises [ValueError] at the
    first partition that has not, and does not roll back: the partitions
    before that one hold their slice of the integer, the others are left as
    they were. *)
Theorem parse_data_int_stops_at_first_error (self : BitField.t) (d : Z) :
  (fst (BitField.parse_data_int self d) = Ok tt
   <-> Forall positioned (BitField.partitions self)) /\
  (forall before bad after,
     BitField.partitions self = before ++ bad :: after ->
     Forall positioned before -> ~ positioned bad ->
     BitField.parse_data_int self d
     = (Raise (ValueError "negative shift count"),
        BitField.with_partitions self (map (parsed d) before ++ bad :: after))).
Proof.
  split.
  - split.
    + intros H.
      destruct (decide (Forall positioned (BitField.partitions self)))
        as [Hps|Hps]; [assumption|exfalso].
      apply not_Forall_Exists in Hps; [|apply _].
      apply Exists_exists in Hps as (bad & Hin & Hbad).
      unfold BitField.parse_data_int in H.
      assert (exists before b after,
                BitField.partitions self = before ++ b :: after /\
                Forall positioned before /\ ~ positioned b)
        as (before & b & after & E & Hb & Hnb).
      { clear H. induction (BitField.partitions self) as [|q qs IH];
          [now apply elem_of_nil in Hin|].
        destruct (decide (positioned q)) as [Hq|Hq].
        - apply elem_of_cons in Hin as [->|Hin]; [contradiction|].
          destruct (IH Hin) as (before & b & after & -> & Hb & Hnb).
          exists (q :: before), b, after. repeat split; [now constructor | assumption].
        - exists [], q, qs. repeat split; [constructor | assumption]. }
      rewrite E, parse_each_stops in H by assumption. discriminate H.
    + intros Hps. unfold BitField.parse_data_int. now rewrite parse_each_Ok.
  - intros before bad after E Hb Hbad. unfold BitField.parse_data_int.
    now rewrite E, parse_each_stops.
Qed.

(** The middle partition of three has a negative length: the first one is
    updated, the last one is not. *)
Lemma parse_data_int_stops_at_first_error_witness :
  BitField.parse_data_int Sample2.broken 0xA7
  = (Raise (ValueError "negative shift count"),
     BitField.mk "Broken" 1
       [BitFieldPartition.mk "low" 0 0 4 7; Sample2.negative; Sample2.high]).
Proof.
  apply (proj2 (parse_data_int_stops_at_first_error Sample2.broken 0xA7)
           [Sample2.low] Sample2.negative [Sample2.high] eq_refl).
  - constructor; [split; vm_compute; discriminate | constructor].
  - intros [_ Hl]. vm_compute in Hl. now apply Hl.
Defined.

Lemma slice_agree (a b : Z) (p : BitFieldPartition.t) :
  positioned p ->
  (forall j, covers p j = true -> Z.testbit a j = Z.testbit b j) ->
  slice a p = slice b p.
Proof.
  intros Hp Hagree. apply Z.bits_inj'. intros k Hk.
  rewrite !testbit_slice by assumption.
  destruct (Z.ltb_spec k (BitFieldPartition.length p));
    [|now rewrite !andb_false_r].
  rewrite !andb_true_r. apply Hagree.
  destruct Hp as [Hs Hl]. unfold covers. lia.
Qed.

(** X11. [parse] reads only the bits of its own range: two integers that
    agree on the bits the partition covers leave the partition in the same
    state (and a partition Python cannot shift raises for both). *)
Theorem parse_reads_its_range_only (p : BitFieldPartition.t) (d1 d2 : Z) :
  (forall j, covers p j = true -> Z.testbit d1 j = Z.testbit d2 j) ->
  BitFieldPartition.parse p d1 = BitFieldPartition.parse p d2.
Proof.
  intros Hagree. destruct (decide (positioned p)) as [Hp|Hp].
  - rewrite !parse_Ok by assumption. unfold parsed.
    now rewrite (slice_agree d1 d2 p Hp Hagree).
  - now rewrite !parse_raise.
Qed.

(** [0x5A] and [0x5F] differ below bit 4 only, where [hi] does not look. *)
Lemma parse_reads_its_range_only_witness :
  BitFieldPartition.parse Sample.hi 0x5A = BitFieldPartition.parse Sample.hi 0x5F.
Proof.
  apply parse_reads_its_range_only.
  intros j Hc. unfold covers in Hc.
  change (BitFieldPartition.shift Sample.hi) with 4 in Hc.
  change (BitFieldPartition.length Sample.hi) with 4 in Hc.
  assert (j = 4 \/ j = 5 \/ j = 6 \/ j = 7) as [->|[->|[->| ->]]] by lia;
    reflexivity.
Defined.

(** X12. After [parse_data_int(d)] on a record whose partitions have
    non-negative shifts and lengths and pairwise different names,
    [partition(name)] returns the partition of that name, positioned as
    before and holding [(d >> shift) & mask]. *)
Theorem partition_after_parse (self : BitField.t) (d : Z)
        (p : BitFieldPartition.t) :
  Forall positioned (BitField.partitions self) ->
  NoDup (names (BitField.partitions self)) ->
  In p (BitField.partitions self) ->
  exists self' q m,
    BitField.parse_data_int self d = (Ok tt, self') /\
    fst (BitField.partition self' (BitFieldPartition.name p)) = Ok q /\
    layout q = layout p /\
    BitFieldPartition.mask p = Ok m /\
    BitFieldPartition.value q = Z.land (Z.shiftr d (BitFieldPartition.shift p)) m.
Proof.
  intros Hps Hnd Hin.
  assert (positioned p) as Hp
    by (rewrite Forall_forall in Hps; apply Hps; now apply list_elem_of_In).
  exists (BitField.with_partitions self (map (parsed d) (BitField.partitions self))),
    (parsed d p), (Z.ones (BitFieldPartition.length p)).
  split; [|split; [|split; [|split]]].
  - unfold BitField.parse_data_int. now rewrite parse_each_Ok.
  - unfold BitField.partition. simpl.
    change (BitFieldPartition.name p) with (BitFieldPartition.name (parsed d p)).
    rewrite find_partition_unique; [reflexivity | |].
    + now rewrite names_parsed.
    + now apply in_map.
  - reflexivity.
  - apply partition_mask_Ok, Hp.
  - reflexivity.
Qed.

(** Looking up [lo] after the sample record has parsed [0x5A]. *)
Lemma partition_after_parse_witness :
  Forall positioned (BitField.partitions Sample.record) /\
  NoDup (names (BitField.partitions Sample.record)) /\
  exists self' q,
    BitField.parse_data_int Sample.record 0x5A = (Ok tt, self') /\
    fst (BitField.partition self' "lo") = Ok q /\
    BitFieldPartition.value q = 2.
Proof.
  assert (Forall positioned (BitField.partitions Sample.record)) as Hps.
  { simpl. repeat (constructor; [split; vm_compute; discriminate|]).
    constructor. }
  assert (NoDup (names (BitField.partitions Sample.record))) as Hnd.
  { simpl. repeat constructor; intros H;
      repeat (apply elem_of_cons in H as [H|H]; [discriminate H|]);
      now apply elem_of_nil in H. }
  split; [exact Hps|]. split; [exact Hnd|].
  destruct (partition_after_parse Sample.record 0x5A Sample.lo Hps Hnd
              (or_intror (or_introl eq_refl)))
    as (self' & q & m & Hparse & Hq & _ & Hm & Hv).
  exists self', q. split; [exact Hparse|]. split; [exact Hq|].
  injection Hm as <-. exact Hv.
Defined.

(** X13. After [parse_data_int(d)] on a record of non-negative width whose
    partitions are positioned within it and have pairwise different names,
    [partition_map()] sends the name of every partition to
    [(d >> shift) & mask], whether or not partitions overlap, with the flag
    set or cleared. *)
Theorem partition_map_after_parse (cfg : Config) (self : BitField.t) (d : Z) :
  0 <= BitField.nbytes self ->
  Forall (laid_out (BitField.nbytes self)) (BitField.partitions self) ->
  NoDup (names (BitField.partitions self)) ->
  exists self' (pm : gmap string Z),
    BitField.parse_data_int self d = (Ok tt, self') /\
    BitField.partition_map cfg self' false = (Ok pm, self') /\
    forall p,
      In p (BitField.partitions self) ->
      exists m,
        BitFieldPartition.mask p = Ok m /\
        pm !! BitFieldPartition.name p
        = Some (Z.land (Z.shiftr d (BitFieldPartition.shift p)) m).
Proof.
  intros Hb Hlaid Hnd. destruct (laid_out_fits self _ Hlaid) as [Hps Hfits].
  destruct (data_int_parsed cfg self d Hb Hlaid) as (d' & Hd' & Hbits).
  pose (ps' := map (parsed d) (BitField.partitions self)).
  exists (BitField.with_partitions self ps'),
    (fold_left (fun m p => <[BitFieldPartition.name p := slice d' p]> m) ps' ∅).
  split; [|split].
  - unfold BitField.parse_data_int. now rewrite parse_each_Ok.
  - unfold BitField.partition_map, ps'. rewrite Hd'. simpl.
    now rewrite (comprehend_Ok false d' _ (positioned_parsed d _ Hps)).
  - intros p Hin.
    assert (positioned p) as Hp
      by (rewrite Forall_forall in Hps; apply Hps; now apply list_elem_of_In).
    exists (Z.ones (BitFieldPartition.length p)).
    split; [apply partition_mask_Ok, Hp|].
    change (BitFieldPartition.name p) with (BitFieldPartition.name (parsed d p)).
    rewrite (fold_insert_lookup BitFieldPartition.name (slice d') ps' (parsed d p)).
    + f_equal. change (slice d' (parsed d p)) with (slice d' p).
      apply slice_agree; [exact Hp|]. intros j Hc.
      assert (0 <= j) as Hj by (destruct Hp; unfold covers in Hc; lia).
      rewrite Hbits by assumption.
      assert (covered (BitField.partitions self) j = true) as ->
        by (apply existsb_exists; eauto).
      apply andb_true_r.
    + fold (names ps'). unfold ps'. now rewrite names_parsed.
    + unfold ps'. now apply in_map.
Qed.

(** The map of the sample record after it has parsed [0x5A]. *)
Lemma partition_map_after_parse_witness :
  0 <= BitField.nbytes Sample.record /\
  Forall (laid_out (BitField.nbytes Sample.record)) (BitField.partitions Sample.record) /\
  NoDup (names (BitField.partitions Sample.record)) /\
  exists self' (pm : gmap string Z),
    BitField.parse_data_int Sample.record 0x5A = (Ok tt, self') /\
    BitField.partition_map strict self' false = (Ok pm, self') /\
    pm !! "hi"%string = Some 5 /\ pm !! "lo"%string = Some 2.
Proof.
  assert (0 <= BitField.nbytes Sample.record) as Hb by (vm_compute; discriminate).
  assert (Forall (laid_out (BitField.nbytes Sample.record))
                 (BitField.partitions Sample.record)) as Hlaid.
  { simpl. repeat (constructor; [repeat split; vm_compute; discriminate|]).
    constructor. }
  assert (NoDup (names (BitField.partitions Sample.record))) as Hnd.
  { simpl. repeat constructor; intros H;
      repeat (apply elem_of_cons in H as [H|H]; [discriminate H|]);
      now apply elem_of_nil in H. }
  split; [exact Hb|]. split; [exact Hlaid|]. split; [exact Hnd|].
  destruct (partition_map_after_parse strict Sample.record 0x5A Hb Hlaid Hnd)
    as (self' & pm & Hparse & Hpm & Hread).
  exists self', pm. split; [exact Hparse|]. split; [exact Hpm|]. split.
  - destruct (Hread Sample.hi (or_introl eq_refl)) as (m & Hm & Hk).
    injection Hm as <-. exact Hk.
  - destruct (Hread Sample.lo (or_intror (or_introl eq_refl))) as (m & Hm & Hk).
    injection Hm as <-. exact Hk.
Defined.

(** ** The setter and the strictness flag *)

(** X14. With the strictness flag set, the setter of [value] accepts
    exactly the integers below [2^length], the negative ones included, and
    raises [OverflowError] for all others. *)
Theorem set_value_accepts_below_width
        (cfg : Config) (p : BitFieldPartition.t) (v : Z) :
  error_check_overflow cfg = true ->
  0 <= BitFieldPartition.length p ->
  (v < 2 ^ BitFieldPartition.length p ->
   BitFieldPartition.set_value cfg p v = Ok (BitFieldPartition.with_value p v)) /\
  (2 ^ BitFieldPartition.length p <= v ->
   BitFieldPartition.set_value cfg p v
   = Raise (OverflowError (BitFieldPartition.overflow_message p v))).
Proof.
  intros Hflag Hl. unfold BitFieldPartition.set_value, checked.
  rewrite Hflag, py_rshift_Ok by assumption. simpl.
  rewrite Z.shiftr_div_pow2 by assumption.
  pose proof (Z.pow_pos_nonneg 2 _ eq_refl Hl) as Hpow.
  pose proof (Z.div_mod v (2 ^ BitFieldPartition.length p)) as Hdm.
  pose proof (Z.mod_pos_bound v (2 ^ BitFieldPartition.length p) Hpow) as Hmod.
  split; intros Hv.
  - destruct (Z.ltb_spec 0 (v / 2 ^ BitFieldPartition.length p));
      [nia | reflexivity].
  - destruct (Z.ltb_spec 0 (v / 2 ^ BitFieldPartition.length p));
      [reflexivity | nia].
Qed.

(** A four-bit partition accepts 15 and -1 and refuses 16. *)
Lemma set_value_accepts_below_width_witness :
  BitFieldPartition.set_value strict Sample.hi 15
  = Ok (BitFieldPartition.mk "hi" 0 4 4 15) /\
  BitFieldPartition.set_value strict Sample.hi (-1)
  = Ok (BitFieldPartition.mk "hi" 0 4 4 (-1)) /\
  BitFieldPartition.set_value strict Sample.hi 16
  = Raise (OverflowError "hi: More than 4 bits of data (0x10)").
Proof.
  assert (0 <= BitFieldPartition.length Sample.hi) as Hl
    by (vm_compute; discriminate).
  split; [|split].
  - apply (proj1 (set_value_accepts_below_width strict Sample.hi 15 eq_refl Hl)).
    reflexivity.
  - apply (proj1 (set_value_accepts_below_width strict Sample.hi (-1) eq_refl Hl)).
    reflexivity.
  - apply (proj2 (set_value_accepts_below_width strict Sample.hi 16 eq_refl Hl)).
    vm_compute. discriminate.
Defined.

(** X15. With the strictness flag cleared, the setter stores any integer as
    it is, and reading through [masked_value] truncates it: the read gives
    the value modulo [2^length], which lies in [[0, mask]]. *)
Theorem lenient_store_truncates_on_read
        (cfg : Config) (p : BitFieldPartition.t) (v : Z) :
  error_check_overflow cfg = false ->
  0 <= BitFieldPartition.length p ->
  BitFieldPartition.set_value cfg p v = Ok (BitFieldPartition.with_value p v) /\
  BitFieldPartition.value (BitFieldPartition.with_value p v) = v /\
  BitFieldPartition.masked_value (BitFieldPartition.with_value p v)
  = Ok (v mod 2 ^ BitFieldPartition.length p) /\
  0 <= v mod 2 ^ BitFieldPartition.length p < 2 ^ BitFieldPartition.length p.
Proof.
  intros Hflag Hl. unfold BitFieldPartition.set_value, checked.
  rewrite Hflag. simpl. repeat split.
  - rewrite masked_value_Ok by assumption. simpl.
    now rewrite Z.land_ones.
  - apply Z.mod_pos_bound. now apply Z.pow_pos_nonneg.
  - apply Z.mod_pos_bound. now apply Z.pow_pos_nonneg.
Qed.

(** Storing [0x1F] in a four-bit partition and reading [0xF] back. *)
Lemma lenient_store_truncates_on_read_witness :
  BitFieldPartition.set_value lenient Sample.hi 0x1F
  = Ok (BitFieldPartition.mk "hi" 0 4 4 0x1F) /\
  BitFieldPartition.masked_value (BitFieldPartition.mk "hi" 0 4 4 0x1F) = Ok 0xF.
Proof.
  assert (0 <= BitFieldPartition.length Sample.hi) as Hl
    by (vm_compute; discriminate).
  destruct (lenient_store_truncates_on_read lenient Sample.hi 0x1F eq_refl Hl)
    as (Hset & _ & Hread & _).
  split; [exact Hset | exact Hread].
Defined.

(** X16. A partition declared with a negative length cannot be used:
    [mask], [masked_value], [parse] and, with the flag set, the setter all
    raise [ValueError]; only the setter with the flag cleared returns,
    storing the value. *)
Theorem negative_length_raises (p : BitFieldPartition.t) :
  BitFieldPartition.length p < 0 ->
  BitFieldPartition.mask p = Raise (ValueError "negative shift count") /\
  BitFieldPartition.masked_value p = Raise (ValueError "negative shift count") /\
  (forall d,
     BitFieldPartition.parse p d = Raise (ValueError "negative shift count")) /\
  (forall cfg v,
     error_check_overflow cfg = true ->
     BitFieldPartition.set_value cfg p v
     = Raise (ValueError "negative shift count")) /\
  (forall cfg v,
     error_check_overflow cfg = false ->
     BitFieldPartition.set_value cfg p v = Ok (BitFieldPartition.with_value p v)).
Proof.
  intros Hl.
  assert (BitFieldPartition.mask p = Raise (ValueError "negative shift count"))
    as Hm.
  { unfold BitFieldPartition.mask, py_lshift.
    destruct (Z.ltb_spec (BitFieldPartition.length p) 0); [reflexivity | lia]. }
  split; [exact Hm|]. split; [|split; [|split]].
  - unfold BitFieldPartition.masked_value. now rewrite Hm.
  - intros d. apply parse_raise. intros [_ H]. lia.
  - intros cfg v Hflag. unfold BitFieldPartition.set_value, checked, py_rshift.
    rewrite Hflag.
    destruct (Z.ltb_spec (BitFieldPartition.length p) 0); [reflexivity | lia].
  - intros cfg v Hflag. unfold BitFieldPartition.set_value, checked.
    now rewrite Hflag.
Qed.

(** A partition of length -1. *)
Lemma negative_length_raises_witness :
  BitFieldPartition.length Sample2.negative < 0 /\
  BitFieldPartition.parse Sample2.negative 0xFF
  = Raise (ValueError "negative shift count").
Proof.
  assert (BitFieldPartition.length Sample2.negative < 0) as Hl by reflexivity.
  split; [exact Hl|].
  exact (proj1 (proj2 (proj2 (negative_length_raises Sample2.negative Hl))) 0xFF).
Defined.


(** ** Construction *)

Lemma data_int_returns_quiet (cfg : Config) (self : BitField.t) :
  0 <= BitField.nbytes self ->
  Forall (quiet cfg (BitField.nbytes self)) (BitField.partitions self) ->
  exists d, BitField.data_int cfg self = Ok d.
Proof.
  intros Hb Hq.
  assert (0 <= BitField.nbits self) as Hn by (unfold BitField.nbits; lia).
  assert (Forall positioned (BitField.partitions self)) as Hps
    by (eapply Forall_impl; [exact Hq | now intros p [Hp _]]).
  destruct (accumulate_Ok _ Hps 0) as [D HD].
  destruct (accumulate_inv _ _ _ HD) as (_ & _ & Hbits).
  eexists. apply data_int_Ok; [exact HD | exact Hn |]. intros Hflag.
  rewrite (high_bits_shiftr D (BitField.nbits self)); [reflexivity | exact Hn |].
  intros j Hj. rewrite Hbits, Z.bits_0 by lia. simpl.
  apply not_true_is_false. intros E.
  apply existsb_exists in E as (p & Hin & Hc).
  rewrite Forall_forall in Hq.
  destruct (Hq p) as [_ [Hoff|[Hfit|Hzero]]]; [now apply list_elem_of_In|..].
  - congruence.
  - unfold contributes in Hc. apply andb_prop in Hc as [Hc _].
    unfold covers in Hc. unfold BitField.nbits in Hj. lia.
  - unfold contributes in Hc. apply andb_prop in Hc as [_ Hc].
    rewrite Hzero, Z.bits_0 in Hc. discriminate Hc.
Qed.

Lemma getattr_property_returns_quiet
      (cfg : Config) (self : BitField.t) (p : property) :
  0 <= BitField.nbytes self ->
  Forall (quiet cfg (BitField.nbytes self)) (BitField.partitions self) ->
  BitField.getattr_property cfg self p = Ok tt.
Proof.
  intros Hb Hq.
  destruct (data_int_returns_quiet cfg self Hb Hq) as (d & Hd).
  destruct (data_ints_bytes cfg self d Hd) as (bs & Hbs & Hrange).
  destruct p; simpl.
  - unfold BitField.data_bytes. rewrite Hbs. simpl.
    destruct (py_bytes_Ok bs Hrange) as [b ->]. reflexivity.
  - now rewrite Hd.
  - now rewrite Hbs.
  - rewrite record_mask_Ok; [reflexivity|]. unfold BitField.nbits. lia.
  - reflexivity.
Qed.

Lemma discover_returns_quiet (cfg : Config) (entries : list (string * attribute)) :
  forall self,
    0 <= BitField.nbytes self ->
    Forall (quiet cfg (BitField.nbytes self)) (BitField.partitions self) ->
    Forall (fun e => forall t, snd e = attr_partition t ->
                               quiet cfg (BitField.nbytes self) t) entries ->
    exists self', BitField.discover cfg entries self = Ok self'.
Proof.
  induction entries as [|[n a] rest IH]; intros self Hb Hps Hes; simpl; [eauto|].
  inversion Hes as [|e es He Hrest]; subst.
  destruct a as [tpl|p|].
  - apply IH; simpl; try assumption.
    apply Forall_app. split; [assumption|].
    constructor; [|constructor]. exact (He tpl eq_refl).
  - rewrite getattr_property_returns_quiet by assumption. simpl. now apply IH.
  - now apply IH.
Qed.

(** X17. Construction returns for every record type (BitField, a
    fixed-width class or a class derived from one) whose templates have
    names of their own (pairwise different, none the name of an attribute
    every [BitField] instance has, none with two leading underscores) and
    non-negative shifts and lengths, when the width is not negative and
    the overflow check is off, or each template lies within the width or
    holds the default value 0.  The record carries the given name and
    width and one owned copy of each declared template. *)
Theorem construction_returns
        (cfg : Config) (C : pyclass) (name : string) (nbytes : Z) :
  well_declared C ->
  0 <= nbytes ->
  Forall (fun d => quiet cfg nbytes (snd d)) (declared_partitions C) ->
  exists self,
    BitField.__init__ cfg C name nbytes = Ok self /\
    BitField.name self = name /\
    BitField.nbytes self = nbytes /\
    Permutation (BitField.partitions self) (map owned (declared_partitions C)).
Proof.
  intros (HC & _ & _) Hb Hdecl. apply BitField_subclass_not_type in HC.
  unfold BitField.__init__, __class__. rewrite HC.
  destruct (discover_returns_quiet cfg (dir C) (BitField.mk name nbytes []))
    as [self Hself]; simpl; try assumption; [constructor| |].
  - unfold dir. eapply Permutation_Forall.
    + symmetry. apply merge_sort_Permutation.
    + apply Forall_app. split.
      * apply Forall_map. eapply Forall_impl; [exact Hdecl|].
        intros d Hd t [= <-]. exact Hd.
      * unfold BitField_attributes.
        repeat (constructor; [intros t E; discriminate E|]). constructor.
  - exists self. split; [assumption|].
    apply discover_partitions in Hself as (Hp & Hn & Hnb). simpl in Hp.
    repeat split; try assumption.
    rewrite Hp. apply dir_templates.
Qed.

(** A one-byte class whose template starts in the second byte constructs
    with the flag set: the template holds 0. *)
Lemma construction_returns_witness :
  well_declared Sample2.misfit /\
  exists self,
    BitField.__init__ strict Sample2.misfit "m" 1 = Ok self /\
    BitField.name self = "m"%string /\
    BitField.nbytes self = 1 /\
    Permutation (BitField.partitions self)
                (map owned (declared_partitions Sample2.misfit)).
Proof.
  assert (well_declared Sample2.misfit) as Hw.
  { split; [reflexivity|]. split.
    - simpl. repeat constructor. intros H. now apply elem_of_nil in H.
    - simpl. repeat (constructor; [split; [|reflexivity]; simpl; intros H;
        repeat (destruct H as [H|H]; [discriminate H|]); exact H|]).
      constructor. }
  split; [exact Hw|].
  apply (construction_returns strict Sample2.misfit "m" 1).
  - exact Hw.
  - vm_compute. discriminate.
  - simpl. constructor; [|constructor].
    split; [split; vm_compute; discriminate|]. right. right. reflexivity.
Defined.

Lemma land_ones_range (a n : Z) :
  0 <= n -> 0 <= Z.land a (Z.ones n) < 2 ^ n.
Proof.
  intros Hn. rewrite Z.land_ones by assumption.
  apply Z.mod_pos_bound. now apply Z.pow_pos_nonneg.
Qed.

(** X18. The fixed-width classes fix the width: a record that
    [Int8BitField], [Int16BitField], [Int32BitField], [Int64BitField] or
    [Int128BitField] constructs carries the given name, and whatever its
    partitions hold, [data_int] returns a non-negative integer below
    [2^8], [2^16], [2^32], [2^64] or [2^128]. *)
Theorem fixed_width_records
        (cfg cfg' : Config) (C : pyclass) (name : string)
        (self : BitField.t) (d : Z) :
  BitField.data_int cfg' self = Ok d ->
  (Int8BitField.__init__ cfg C name = Ok self ->
   BitField.name self = name /\ 0 <= d < 2 ^ 8) /\
  (Int16BitField.__init__ cfg C name = Ok self ->
   BitField.name self = name /\ 0 <= d < 2 ^ 16) /\
  (Int32BitField.__init__ cfg C name = Ok self ->
   BitField.name self = name /\ 0 <= d < 2 ^ 32) /\
  (Int64BitField.__init__ cfg C name = Ok self ->
   BitField.name self = name /\ 0 <= d < 2 ^ 64) /\
  (Int128BitField.__init__ cfg C name = Ok self ->
   BitField.name self = name /\ 0 <= d < 2 ^ 128).
Proof.
  intros Hd. apply data_int_inv in Hd as (D & _ & Hn & -> & _).
  pose proof (land_ones_range D (BitField.nbits self) Hn) as B.
  assert (forall n,
            BitField.__init__ cfg C name n = Ok self ->
            BitField.name self = name /\
            0 <= Z.land D (Z.ones (BitField.nbits self)) < 2 ^ (n * 8)) as Hinit.
  { intros n H. unfold BitField.__init__ in H.
    destruct (pyclass_eqb C (__class__ class_BitField)); [discriminate|].
    apply discover_partitions in H as (_ & Hname & Hnb). simpl in *.
    split; [assumption|]. unfold BitField.nbits in *. rewrite Hnb in *. lia. }
  unfold Int8BitField.__init__, Int16BitField.__init__, Int32BitField.__init__,
    Int64BitField.__init__, Int128BitField.__init__, __class__.
  destruct (pyclass_eqb C class_type);
    (split; [|split; [|split; [|split]]]); intros H;
    try discriminate H; now apply Hinit in H.
Qed.

(** The joystick message, an [Int64BitField], packs below [2^64]. *)
Lemma fixed_width_records_witness :
  exists ejm d,
    ExtendedJoystickMessage.__init__ strict = Ok ejm /\
    BitField.data_int strict ejm = Ok d /\
    BitField.name ejm = "ExtendedJoystickMessage"%string /\
    0 <= d < 2 ^ 64.
Proof.
  destruct (ExtendedJoystickMessage.__init__ strict) as [ejm|e] eqn:Hinit;
    [|vm_compute in Hinit; discriminate Hinit].
  destruct (BitField.data_int strict ejm) as [d|e] eqn:Hd.
  - exists ejm, d. split; [reflexivity|]. split; [exact Hd|].
    exact (proj1 (proj2 (proj2 (proj2
             (fixed_width_records strict strict ExtendedJoystickMessage.class
                "ExtendedJoystickMessage" ejm d Hd)))) Hinit).
  - exfalso. vm_compute in Hinit. injection Hinit as <-.
    vm_compute in Hd. discriminate Hd.
Defined.

(** ** Assignment through an attribute of the record *)









(** ** The keys of [partition_map(True)] *)

Lemma after_space_app (a rest : string) :
  spaceless a = true -> after_space (a +:+ rest) = after_space rest.
Proof.
  induction a as [|c a IH]; simpl; intros H; [reflexivity|].
  apply andb_prop in H as [Hc Ha].
  destruct (Ascii.eqb c " "); [discriminate Hc | now apply IH].
Qed.

Lemma spaceless_uint (d : Decimal.uint) :
  spaceless (NilEmpty.string_of_uint d) = true.
Proof. induction d; simpl; assumption || reflexivity. Qed.

Lemma spaceless_py_str (n : Z) : spaceless (py_str n) = true.
Proof.
  unfold py_str, NilZero.string_of_int, NilZero.string_of_uint.
  destruct (Z.to_int n) as [d|d]; [destruct d|destruct d];
    try reflexivity; simpl; apply spaceless_uint.
Qed.

(** The name can be read back from the prefixed name: it is what follows
    the first space. *)
Lemma after_space_prefixed_name (p : BitFieldPartition.t) :
  after_space (BitFieldPartition.prefixed_name p) = BitFieldPartition.name p.
Proof.
  unfold BitFieldPartition.prefixed_name.
  rewrite (after_space_app (py_str (BitFieldPartition.start_byte p)))
    by apply spaceless_py_str.
  rewrite (after_space_app ".") by reflexivity.
  rewrite (after_space_app (py_str (BitFieldPartition.start_bit p)))
    by apply spaceless_py_str.
  rewrite (after_space_app ":") by reflexivity.
  rewrite (after_space_app (py_str (BitFieldPartition.length p)))
    by apply spaceless_py_str.
  reflexivity.
Qed.

Lemma NoDup_prefixed_names (ps : list BitFieldPartition.t) :
  NoDup (names ps) -> NoDup (map BitFieldPartition.prefixed_name ps).
Proof.
  induction ps as [|p ps IH]; simpl; intros H; [constructor|].
  apply NoDup_cons in H as [Hp Hnd]. apply NoDup_cons. split; [|now apply IH].
  intros Hin. apply Hp. apply list_elem_of_In in Hin.
  apply in_map_iff in Hin as (q & Hq & Hin).
  apply list_elem_of_In. unfold names. apply in_map_iff. exists q.
  split; [|assumption].
  now rewrite <- !after_space_prefixed_name, Hq.
Qed.

(** X21. With [prefix] set, [partition_map] keeps the partitions apart: on
    a record whose partitions have pairwise different names the prefixed
    names are pairwise different too (the name is what follows the first
    space of the prefixed name), and the map sends the prefixed name of
    every partition to [(d >> shift) & mask], [d] being what [data_int]
    returns. *)
Theorem partition_map_prefixed (cfg : Config) (self : BitField.t) (d : Z) :
  BitField.data_int cfg self = Ok d ->
  NoDup (names (BitField.partitions self)) ->
  exists pm : gmap string Z,
    BitField.partition_map cfg self true = (Ok pm, self) /\
    (forall p q,
       BitFieldPartition.prefixed_name p = BitFieldPartition.prefixed_name q ->
       BitFieldPartition.name p = BitFieldPartition.name q) /\
    (forall k, In k (map BitFieldPartition.prefixed_name (BitField.partitions self))
               <-> pm !! k <> None) /\
    (forall p,
       In p (BitField.partitions self) ->
       exists m,
         BitFieldPartition.mask p = Ok m /\
         pm !! BitFieldPartition.prefixed_name p
         = Some (Z.land (Z.shiftr d (BitFieldPartition.shift p)) m)).
Proof.
  intros Hd Hnd.
  destruct (data_int_inv _ _ _ Hd) as (D & HD & _ & _ & _).
  destruct (accumulate_inv _ _ _ HD) as (Hps & _ & _).
  apply NoDup_prefixed_names in Hnd.
  exists (fold_left
            (fun m p => <[BitFieldPartition.prefixed_name p := slice d p]> m)
            (BitField.partitions self) ∅).
  split; [|split; [|split]].
  - unfold BitField.partition_map. rewrite Hd. simpl.
    now rewrite (comprehend_Ok true d _ Hps).
  - intros p q E. now rewrite <- !after_space_prefixed_name, E.
  - intros k. split.
    + intros Hk. apply in_map_iff in Hk as (p & <- & Hin).
      now rewrite (fold_insert_lookup BitFieldPartition.prefixed_name (slice d)).
    + intros Hk.
      destruct (in_dec string_dec k
                  (map BitFieldPartition.prefixed_name (BitField.partitions self)))
        as [Hin|Hout]; [assumption|].
      exfalso. apply Hk.
      now rewrite (fold_insert_other BitFieldPartition.prefixed_name (slice d)).
  - intros p Hin. exists (Z.ones (BitFieldPartition.length p)).
    assert (positioned p) as Hp
      by (rewrite Forall_forall in Hps; apply Hps; now apply list_elem_of_In).
    split; [apply partition_mask_Ok, Hp|].
    now rewrite (fold_insert_lookup BitFieldPartition.prefixed_name (slice d)).
Qed.

(** The prefixed map of the sample record. *)
Lemma partition_map_prefixed_witness :
  BitField.data_int strict Sample.record = Ok 0x95 /\
  NoDup (names (BitField.partitions Sample.record)) /\
  exists pm : gmap string Z,
    BitField.partition_map strict Sample.record true = (Ok pm, Sample.record) /\
    pm !! "0.4:4 hi"%string = Some 9 /\ pm !! "0.0:3 lo"%string = Some 5.
Proof.
  assert (BitField.data_int strict Sample.record = Ok 0x95) as Hd
    by reflexivity.
  assert (NoDup (names (BitField.partitions Sample.record))) as Hnd.
  { simpl. repeat constructor; intros H;
      repeat (apply elem_of_cons in H as [H|H]; [discriminate H|]);
      now apply elem_of_nil in H. }
  split; [exact Hd|]. split; [exact Hnd|].
  destruct (partition_map_prefixed strict Sample.record 0x95 Hd Hnd)
    as (pm & Hpm & _ & _ & Hread).
  exists pm. split; [exact Hpm|]. split.
  - destruct (Hread Sample.hi (or_introl eq_refl)) as (m & Hm & Hk).
    injection Hm as <-. exact Hk.
  - destruct (Hread Sample.lo (or_intror (or_introl eq_refl))) as (m & Hm & Hk).
    injection Hm as <-. exact Hk.
Defined.

(** ** Frames: bytes in, bytes out *)

Lemma from_little_endian_cons_low (b R : Z) :
  0 <= b <= 255 -> Z.land (b + 256 * R) 0xFF = b.
Proof.
  intros Hb. change 0xFF with (Z.ones 8). rewrite Z.land_ones by lia.
  change (2 ^ 8) with 256. rewrite (Z.mul_comm 256 R), Z.mod_add by lia.
  apply Z.mod_small. lia.
Qed.

Lemma from_little_endian_cons_high (b R : Z) :
  0 <= b <= 255 -> Z.shiftr (b + 256 * R) 8 = R.
Proof.
  intros Hb. rewrite Z.shiftr_div_pow2 by lia. change (2 ^ 8) with 256.
  rewrite (Z.mul_comm 256 R), Z.div_add by lia.
  rewrite Z.div_small by lia. reflexivity.
Qed.

Lemma split_from_little_endian (bs : list Z) :
  Forall (fun b => 0 <= b <= 255) bs ->
  map (fun i => Z.land (Z.shiftr (from_little_endian bs) (i * 8)) 0xFF)
      (map Z.of_nat (seq 0 (List.length bs)))
  = bs.
Proof.
  induction 1 as [|b bs Hb _ IH]; [reflexivity|].
  cbn [List.length seq map from_little_endian]. f_equal.
  - change (Z.of_nat 0 * 8) with 0. rewrite Z.shiftr_0_r.
    now apply from_little_endian_cons_low.
  - rewrite <- seq_shift, !map_map. rewrite <- IH at 2. rewrite map_map.
    apply map_ext. intros i.
    replace (Z.of_nat (S i) * 8) with (8 + Z.of_nat i * 8) by lia.
    rewrite <- Z.shiftr_shiftr by lia.
    now rewrite from_little_endian_cons_high.
Qed.

Lemma from_little_endian_range (bs : list Z) :
  Forall (fun b => 0 <= b <= 255) bs ->
  0 <= from_little_endian bs < 2 ^ (Z.of_nat (List.length bs) * 8).
Proof.
  induction 1 as [|b bs Hb _ IH]; [simpl; lia|].
  cbn [List.length from_little_endian].
  replace (Z.of_nat (S (List.length bs)) * 8)
    with (8 + Z.of_nat (List.length bs) * 8) by lia.
  rewrite Z.pow_add_r by lia. change (2 ^ 8) with 256. lia.
Qed.

(** Unpack, then pack, on a record whose partitions cover all of its
    bits. *)
Lemma data_int_parsed_full (cfg : Config) (self : BitField.t) (d : Z) :
  0 <= BitField.nbytes self ->
  Forall (laid_out (BitField.nbytes self)) (BitField.partitions self) ->
  (forall j, 0 <= j < BitField.nbits self ->
     covered (BitField.partitions self) j = true) ->
  0 <= d < 2 ^ BitField.nbits self ->
  BitField.data_int cfg
    (BitField.with_partitions self (map (parsed d) (BitField.partitions self)))
  = Ok d.
Proof.
  intros Hb Hlaid Hcov Hd. destruct (laid_out_fits self _ Hlaid) as [Hps Hfits].
  destruct (data_int_parsed cfg self d Hb Hlaid) as (d' & Hd' & Hbits).
  rewrite Hd'. f_equal. apply Z.bits_inj'. intros j Hj.
  rewrite Hbits by assumption.
  assert (0 <= BitField.nbits self) as Hn by (unfold BitField.nbits; lia).
  destruct (Z.lt_ge_cases j (BitField.nbits self)).
  - rewrite Hcov by lia. apply andb_true_r.
  - rewrite covered_fits by assumption. rewrite andb_false_r.
    rewrite <- (Z.mod_small d (2 ^ BitField.nbits self)) by assumption.
    rewrite <- Z.land_ones by assumption. symmetry. now apply land_ones_high.
Qed.

(** X22. Bytes in, bytes out.  On a record of non-negative width whose
    partitions are positioned within it and cover every bit below [nbits],
    parsing the integer that [nbytes] bytes stand for (least significant
    byte first) succeeds, and [data_ints] then returns those bytes, with
    the flag set or cleared. *)
Theorem bytes_round_trip (cfg : Config) (self : BitField.t) (bs : list Z) :
  0 <= BitField.nbytes self ->
  Forall (laid_out (BitField.nbytes self)) (BitField.partitions self) ->
  (forall j, 0 <= j < BitField.nbits self ->
     covered (BitField.partitions self) j = true) ->
  Z.of_nat (List.length bs) = BitField.nbytes self ->
  Forall (fun b => 0 <= b <= 255) bs ->
  exists self',
    BitField.parse_data_int self (from_little_endian bs) = (Ok tt, self') /\
    BitField.data_int cfg self' = Ok (from_little_endian bs) /\
    BitField.data_ints cfg self' = Ok bs.
Proof.
  intros Hb Hlaid Hcov Hlen Hbytes.
  destruct (laid_out_fits self _ Hlaid) as [Hps _].
  pose proof (from_little_endian_range bs Hbytes) as Hrange.
  rewrite Hlen in Hrange. fold (BitField.nbits self) in Hrange.
  pose proof (data_int_parsed_full cfg self _ Hb Hlaid Hcov Hrange) as Hd.
  eexists. split; [|split; [exact Hd|]].
  - unfold BitField.parse_data_int. now rewrite parse_each_Ok.
  - unfold BitField.data_ints. rewrite Hd. simpl. f_equal.
    unfold py_range. rewrite <- Hlen, Nat2Z.id.
    now apply split_from_little_endian.
Qed.

(** The byte [0xA7] through the record of two nibbles. *)
Lemma bytes_round_trip_witness :
  exists self',
    BitField.parse_data_int Sample2.full (from_little_endian [0xA7])
    = (Ok tt, self') /\
    BitField.data_int strict self' = Ok (from_little_endian [0xA7]) /\
    BitField.data_ints strict self' = Ok [0xA7].
Proof.
  apply (bytes_round_trip strict Sample2.full [0xA7]).
  - vm_compute. discriminate.
  - simpl. repeat (constructor; [repeat split; vm_compute; discriminate|]).
    constructor.
  - intros j Hj. change (BitField.nbits Sample2.full) with 8 in Hj.
    unfold covered, covers. simpl.
    change (BitFieldPartition.shift Sample2.low) with 0.
    change (BitFieldPartition.shift Sample2.high) with 4.
    lia.
  - reflexivity.
  - constructor; [vm_compute; split; discriminate | constructor].
Defined.

(** X23. The joystick message of [test.py] decodes and encodes every
    frame: its twenty partitions lie within the 64 bits and cover each of
    them, so that for every integer [d] in [[0, 2^64)] a fresh message
    that parses [d] packs to [d] again. *)
Theorem joystick_round_trips_every_frame (cfg : Config) (d : Z) :
  0 <= d < 2 ^ 64 ->
  exists fresh ejm,
    ExtendedJoystickMessage.__init__ cfg = Ok fresh /\
    Forall (laid_out 8) (BitField.partitions fresh) /\
    (forall j, 0 <= j < 64 -> covered (BitField.partitions fresh) j = true) /\
    BitField.parse_data_int fresh d = (Ok tt, ejm) /\
    BitField.data_int cfg ejm = Ok d.
Proof.
  intros Hd.
  destruct (ExtendedJoystickMessage.__init__ cfg) as [fresh|e] eqn:Hinit;
    [|destruct cfg as [[|]]; vm_compute in Hinit; discriminate Hinit].
  assert (BitField.nbytes fresh = 8 /\
          Forall (laid_out 8) (BitField.partitions fresh) /\
          (forall j, 0 <= j < 64 -> covered (BitField.partitions fresh) j = true))
    as (Hnb & Hlaid & Hcov).
  { destruct cfg as [[|]]; vm_compute in Hinit; injection Hinit as <-;
      (split; [reflexivity|]); (split;
      [ cbn [BitField.partitions];
        repeat (constructor; [repeat split; vm_compute; discriminate|]);
        constructor
      | intros j Hj; unfold covered, covers, BitFieldPartition.shift;
        cbn [BitField.partitions existsb BitFieldPartition.start_byte
             BitFieldPartition.start_bit BitFieldPartition.length]; lia ]). }
  exists fresh. eexists. split; [reflexivity|].
  split; [exact Hlaid|]. split; [exact Hcov|].
  assert (Forall positioned (BitField.partitions fresh)) as Hps
    by (eapply Forall_impl; [exact Hlaid | now intros p [Hp _]]).
  split.
  - unfold BitField.parse_data_int. now rewrite parse_each_Ok.
  - apply data_int_parsed_full.
    + rewrite Hnb. lia.
    + now rewrite Hnb.
    + unfold BitField.nbits. rewrite Hnb. exact Hcov.
    + unfold BitField.nbits. rewrite Hnb. exact Hd.
Qed.

(** The frame of [testParseData]. *)
Lemma joystick_round_trips_every_frame_witness :
  exists fresh ejm,
    ExtendedJoystickMessage.__init__ strict = Ok fresh /\
    BitField.parse_data_int fresh 0x47FFFFFFFFFFAA81 = (Ok tt, ejm) /\
    BitField.data_int strict ejm = Ok 0x47FFFFFFFFFFAA81.
Proof.
  destruct (joystick_round_trips_every_frame strict 0x47FFFFFFFFFFAA81)
    as (fresh & ejm & Hinit & _ & _ & Hparse & Hpack).
  - split; [vm_compute; discriminate | reflexivity].
  - exists fresh, ejm. repeat split; assumption.
Defined.
